(** * pretix data shredder: a shallow embedding of [pretix/base/shredder.py]

    The development follows the source file top to bottom:
    - the values Python's [json] module decodes, and the handful of Python
      operators the shredders apply to them ([in], [x[k]], [x[k] = v],
      iteration, truthiness);
    - the eligibility gate [shred_constraints];
    - the redaction primitive [shred_log_fields];
    - the four shredders, over an explicit database state. *)

From Stdlib Require Import ZArith List String Ascii Bool Lia.
From Stdlib Require Import Floats.SpecFloat DecimalString.
Import ListNotations.
Open Scope string_scope.

Set Warnings "-register-all".

(** ** Exceptions *)

(** The exceptions the modelled code can raise. *)
Inductive pyexc : Type :=
| TypeError
| AttributeError
| KeyError
| IndexError
| JSONDecodeError.

(** A computation either returns a value or raises. *)
Inductive exc (A : Type) : Type :=
| Ok (a : A)
| Raise (e : pyexc).
Arguments Ok {A} a.
Arguments Raise {A} e.

Definition bind {A B : Type} (m : exc A) (k : A -> exc B) : exc B :=
  match m with
  | Ok a => k a
  | Raise e => Raise e
  end.

Declare Scope exc_scope.
Delimit Scope exc_scope with exc.
Notation "x <- m ;; k" := (bind m (fun x => k))
  (at level 100, m at next level, right associativity) : exc_scope.
Open Scope exc_scope.

(** A [for] loop whose body may raise and whose iterations each produce the
    new version of the visited item. *)
Fixpoint mapM {A B : Type} (f : A -> exc B) (l : list A) : exc (list B) :=
  match l with
  | [] => Ok []
  | x :: r => y <- f x ;; ys <- mapM f r ;; Ok (y :: ys)
  end.

(** A [for] loop threading one mutable object through its iterations. *)
Fixpoint foldM {A S : Type} (f : S -> A -> exc S) (l : list A) (s : S) : exc S :=
  match l with
  | [] => Ok s
  | x :: r => s' <- f s x ;; foldM f r s'
  end.

(** ** JSON values, as [json.loads] returns them *)

(** [dict] keeps insertion order; [int] is unbounded; [float] is an IEEE
    double, kept in the Standard Library's specification format. *)
Inductive json : Type :=
| JNull
| JBool (b : bool)
| JInt (z : Z)
| JFloat (f : spec_float)
| JStr (s : string)
| JList (l : list json)
| JDict (d : list (string * json)).

(** A Python [dict] with string keys: its items in insertion order. *)
Definition dict : Type := list (string * json).

(** The redaction marker, U+2588 FULL BLOCK (three bytes in UTF-8). *)
Definition marker : string := "█".
Definition masked : json := JStr marker.

Definition keys (d : dict) : list string := map fst d.

(** [k in d] for a dict [d]. *)
Definition dict_has (k : string) (d : dict) : bool :=
  existsb (fun kv => fst kv =? k) d.

(** [d.get(k)]: the value stored under [k], if any. *)
Fixpoint dict_get (k : string) (d : dict) : option json :=
  match d with
  | [] => None
  | (k', v) :: r => if k' =? k then Some v else dict_get k r
  end.

(** Overwriting the value of a key that is present; the key keeps its place.
    Keys of a dict are distinct, so at most one item changes. *)
Definition dict_update (k : string) (v : json) (d : dict) : dict :=
  map (fun kv => if fst kv =? k then (fst kv, v) else kv) d.

(** [d[k] = v]: overwrite in place, or append a new item. *)
Definition dict_set (k : string) (v : json) (d : dict) : dict :=
  if dict_has k d then dict_update k v d else (d ++ [(k, v)])%list.

(** [needle in hay] for two [str]: substring test. *)
Fixpoint str_contains (needle hay : string) : bool :=
  prefix needle hay ||
  match hay with
  | EmptyString => false
  | String _ rest => str_contains needle rest
  end.

(** A byte that continues a UTF-8 sequence (10xxxxxx). *)
Definition utf8_continuation (c : ascii) : bool :=
  let n := nat_of_ascii c in (128 <=? n)%nat && (n <? 192)%nat.

(** The characters of a [str]: the text is split before every byte that
    starts a UTF-8 sequence. *)
Fixpoint py_chars (s : string) : list string :=
  match s with
  | EmptyString => []
  | String c rest =>
      match py_chars rest with
      | [] => [String c EmptyString]
      | t :: ts =>
          match t with
          | String c' _ =>
              if utf8_continuation c' then String c t :: ts
              else String c EmptyString :: t :: ts
          | EmptyString => String c EmptyString :: ts
          end
      end
  end.

(** [bool(v)]: Python truthiness. *)
Definition truthy (v : json) : bool :=
  match v with
  | JNull => false
  | JBool b => b
  | JInt z => negb (z =? 0)%Z
  | JFloat (S754_zero _) => false
  | JFloat _ => true
  | JStr s => negb (s =? "")
  | JList l => match l with [] => false | _ => true end
  | JDict d => match d with [] => false | _ => true end
  end.

(** [isinstance(v, bool)]. *)
Definition is_bool (v : json) : bool :=
  match v with JBool _ => true | _ => false end.

(** [k in v] for a [str] constant [k]: key test on a dict, element test on a
    list (only a [str] element can equal [k]), substring test on a [str];
    the other values are not containers. *)
Definition py_contains (k : string) (v : json) : exc bool :=
  match v with
  | JDict d => Ok (dict_has k d)
  | JList l => Ok (existsb (fun x => match x with JStr s => s =? k | _ => false end) l)
  | JStr s => Ok (str_contains k s)
  | _ => Raise TypeError
  end.

(** [v[k]] for a [str] key [k]. *)
Definition py_getitem (v : json) (k : string) : exc json :=
  match v with
  | JDict d => match dict_get k d with Some x => Ok x | None => Raise KeyError end
  | _ => Raise TypeError
  end.

(** [v[k] = x] for a [str] key [k]: only a dict accepts it. *)
Definition py_setitem (v : json) (k : string) (x : json) : exc json :=
  match v with
  | JDict d => Ok (JDict (dict_set k x d))
  | _ => Raise TypeError
  end.

(** [iter(v)]: the items a [for] loop visits. *)
Definition py_iter (v : json) : exc (list json) :=
  match v with
  | JList l => Ok l
  | JDict d => Ok (map JStr (keys d))
  | JStr s => Ok (map JStr (py_chars s))
  | _ => Raise TypeError
  end.

(** The position a list subscript [l[z]] denotes in a list of length [n]:
    negative subscripts count from the end. *)
Definition list_position (z : Z) (n : nat) : exc nat :=
  let z' := if (z <? 0)%Z then (z + Z.of_nat n)%Z else z in
  if (0 <=? z')%Z && (z' <? Z.of_nat n)%Z then Ok (Z.to_nat z')
  else Raise IndexError.

(** The subscript [l[v]] of a list: [v] must be an [int] ([bool] is one). *)
Definition py_index (v : json) (n : nat) : exc nat :=
  match v with
  | JInt z => list_position z n
  | JBool b => list_position (if b then 1 else 0)%Z n
  | _ => Raise TypeError
  end.

(** [l[i] = x] at a position known to be in range. *)
Fixpoint list_set (i : nat) (x : json) (l : list json) : list json :=
  match l, i with
  | [], _ => []
  | _ :: r, O => x :: r
  | y :: r, S i' => y :: list_set i' x r
  end.

(** ** The eligibility gate *)

(** A point in time, in microseconds since the epoch (the resolution of
    [datetime]); [timedelta(days=60)] in the same unit. *)
Abbreviation datetime := Z (only parsing).
Definition sixty_days : Z := (60 * 86400 * 1000000)%Z.

(** The attributes of [Event] the gate reads. *)
Record Event : Type := mkEvent {
  date_from : option datetime;
  date_to : option datetime;
  live : bool
}.

Definition msg_not_over : string :=
  "Your event needs to be over for at least 60 days to use this feature.".
Definition msg_not_offline : string :=
  "Your ticket shop needs to be offline to use this feature.".

(** [event.date_to or event.date_from]: a [datetime] is always truthy, so
    [or] falls through to [date_from] only when [date_to] is [None]. *)
Definition date_to_or_date_from (event : Event) : option datetime :=
  match date_to event with
  | Some t => Some t
  | None => date_from event
  end.

(** [shred_constraints(event)], evaluated when [now()] returns [now].
    Comparing [None] with a [datetime] raises [TypeError]. *)
Definition shred_constraints (now : datetime) (event : Event) : exc (option string) :=
  match date_to_or_date_from event with
  | None => Raise TypeError
  | Some t =>
      if (t >? now - sixty_days)%Z then Ok (Some msg_not_over)
      else if live event then Ok (Some msg_not_offline)
      else Ok None
  end.

(** ** Log entries *)

(** The text column [LogEntry.data], up to what [json.loads] makes of it:
    the empty text, a JSON document (kept as the value it decodes to, which
    [json.dumps] encodes back), or any other text. *)
Inductive text : Type :=
| TextEmpty
| TextInvalid
| TextJson (j : json).

(** The columns of [LogEntry] the shredders read and write. *)
Record LogEntry : Type := mkLogEntry {
  le_pk : nat;
  le_event : nat;
  action_type : string;
  data : text;
  shredded : bool
}.

(** Modelled from the spec: [LogEntry.parsed_data] is declared with the model
    class, outside this file; the log entry's text is parsed as structured
    data, and text that does not parse makes the call fail. *)
Definition parsed_data (logentry : LogEntry) : exc json :=
  match data logentry with
  | TextJson j => Ok j
  | _ => Raise JSONDecodeError
  end.

(** ** The redaction primitive *)

(** [k in l] for a list of names. *)
Definition in_names (k : string) (l : list string) : bool :=
  existsb (String.eqb k) l.

(** Truthiness of an optional list argument: [None] and [[]] are falsy. *)
Definition supplied (arg : option (list string)) : option (list string) :=
  match arg with
  | Some (x :: l) => Some (x :: l)
  | _ => None
  end.

(** One iteration of [for k, v in d.items(): if k not in whitelist: d[k] = marker]. *)
Definition whitelist_step (whitelist : list string) (d : dict) (k : string) : dict :=
  if in_names k whitelist then d else dict_set k masked d.

(** One iteration of [for f in blacklist: if f in d: d[f] = marker]. *)
Definition blacklist_step (d : json) (f : string) : exc json :=
  has <- py_contains f d ;;
  if has then py_setitem d f masked else Ok d.

(** The masking part of [shred_log_fields], on the parsed payload [d].
    Only a dict has [.items()]. *)
Definition mask_log_fields (blacklist whitelist : option (list string))
    (d : json) : exc json :=
  match supplied whitelist with
  | Some wl =>
      match d with
      | JDict dd => Ok (JDict (fold_left (whitelist_step wl) (keys dd) dd))
      | _ => Raise AttributeError
      end
  | None =>
      match supplied blacklist with
      | Some bl => foldM blacklist_step bl d
      | None => Ok d
      end
  end.

(** The in-memory effect of the last lines of [shred_log_fields] and of each
    shredder loop: [le.data = json.dumps(d); le.shredded = True]. *)
Definition rewritten (logentry : LogEntry) (d : json) : LogEntry :=
  mkLogEntry (le_pk logentry) (le_event logentry) (action_type logentry)
             (TextJson d) true.

(** [shred_log_fields] up to the [save]: the entry that is written. *)
Definition shred_log_fields_entry (logentry : LogEntry)
    (blacklist whitelist : option (list string)) : exc LogEntry :=
  d <- parsed_data logentry ;;
  d' <- mask_log_fields blacklist whitelist d ;;
  Ok (rewritten logentry d').

(** ** The per-shredder masking of "order modified" payloads *)

(** [for row in container: body(row)].  The elements of a list are mutable
    objects the list keeps holding; the keys of a dict and the characters of
    a [str] are immutable strings, so those containers cannot change. *)
Definition for_rows (body : json -> exc json) (container : json) : exc json :=
  match container with
  | JList rows => rows' <- mapM body rows ;; Ok (JList rows')
  | _ => rows <- py_iter container ;; _ <- mapM body rows ;; Ok container
  end.

(** [d['data'][i]] while [enumerate(d['data'])] visits [row] at position [i]:
    the row itself for a list or a [str]; a decoded dict has no integer key. *)
Definition subscript_row (container row : json) : exc json :=
  match container with
  | JList _ | JStr _ => Ok row
  | JDict _ => Raise KeyError
  | _ => Raise TypeError
  end.

(** EmailAddressShredder: [if 'attendee_email' in row: row['attendee_email'] = marker]. *)
Definition email_row (row : json) : exc json :=
  has <- py_contains "attendee_email" row ;;
  if has then py_setitem row "attendee_email" masked else Ok row.

(** AttendeeNameShredder:
    [if 'attendee_name' in row: d['data'][i]['attendee_name'] = marker]. *)
Definition name_row (container row : json) : exc json :=
  has <- py_contains "attendee_name" row ;;
  if has then
    target <- subscript_row container row ;;
    py_setitem target "attendee_name" masked
  else Ok row.

(** [f in ('attendee_name', 'attendee_email')]. *)
Definition protected (f : string) : bool :=
  (f =? "attendee_name") || (f =? "attendee_email").

(** QuestionAnswerShredder, one iteration of [for f in row] for a [str] [f]:
    [if f not in (...): d['data'][i][f] = marker]. *)
Definition answer_field (container row : json) (f : string) : exc json :=
  if protected f then Ok row
  else target <- subscript_row container row ;; py_setitem target f masked.

(** [for f in row] when the row is itself a list: the loop reads the element
    at the next position of the list as it is then, and [row[f] = marker]
    needs an integer [f].  [n] positions remain to be visited. *)
Fixpoint answer_list_row (n : nat) (l : list json) : exc (list json) :=
  match n with
  | O => Ok l
  | S n' =>
      match nth_error l (List.length l - n) with
      | None => Ok l
      | Some f =>
          if match f with JStr s => protected s | _ => false end
          then answer_list_row n' l
          else i <- py_index f (List.length l) ;;
               answer_list_row n' (list_set i masked l)
      end
  end.

(** QuestionAnswerShredder, the body of [for i, row in enumerate(d['data'])]. *)
Definition answer_row (container row : json) : exc json :=
  match row with
  | JDict r => foldM (answer_field container) (keys r) row
  | JList l => l' <- answer_list_row (List.length l) l ;; Ok (JList l')
  | JStr s => foldM (answer_field container) (py_chars s) row
  | _ => Raise TypeError
  end.

(** InvoiceAddressShredder, one iteration of [for field in d['invoice_data']]
    for a [str] [field]: [if inv[field]: inv[field] = marker]. *)
Definition invoice_field (inv : json) (field : string) : exc json :=
  v <- py_getitem inv field ;;
  if truthy v then py_setitem inv field masked else Ok inv.

(** The same loop when [invoice_data] is a list: its elements are used as
    subscripts of the list as it is then. *)
Fixpoint invoice_list (n : nat) (l : list json) : exc (list json) :=
  match n with
  | O => Ok l
  | S n' =>
      match nth_error l (List.length l - n) with
      | None => Ok l
      | Some field =>
          i <- py_index field (List.length l) ;;
          if truthy (nth i l JNull) then invoice_list n' (list_set i masked l)
          else invoice_list n' l
      end
  end.

(** InvoiceAddressShredder: [for field in inv: if inv[field]: inv[field] = marker]. *)
Definition invoice_fields (inv : json) : exc json :=
  match inv with
  | JDict r => foldM invoice_field (keys r) inv
  | JList l => l' <- invoice_list (List.length l) l ;; Ok (JList l')
  | JStr s => foldM invoice_field (py_chars s) inv
  | _ => Raise TypeError
  end.

(** The four shredders. *)
Inductive shredder : Type :=
| EmailAddressShredder
| AttendeeNameShredder
| InvoiceAddressShredder
| QuestionAnswerShredder.

(** The class attribute [identifier]. *)
Definition identifier (sh : shredder) : string :=
  match sh with
  | EmailAddressShredder => "order_emails"
  | AttendeeNameShredder => "attendee_names"
  | InvoiceAddressShredder => "invoice_addresses"
  | QuestionAnswerShredder => "question_answers"
  end.

(** The receiver of [register_data_shredders]. *)
Definition register_payment_provider : list shredder :=
  [EmailAddressShredder; AttendeeNameShredder;
   InvoiceAddressShredder; QuestionAnswerShredder].

(** The body of a shredder's loop over the "order modified" entries, on the
    parsed payload [d]: [Some d'] when the entry is rewritten with [d'],
    [None] when the guard fails and the entry is left alone.  The nested
    object is changed in place, so [d] holds the new version of it. *)
Definition mask_order_modified (sh : shredder) (d : json) : exc (option json) :=
  match sh with
  | InvoiceAddressShredder =>
      has <- py_contains "invoice_data" d ;;
      if has then
        inv <- py_getitem d "invoice_data" ;;
        if is_bool inv then Ok None
        else
          inv' <- invoice_fields inv ;;
          d' <- py_setitem d "invoice_data" inv' ;;
          Ok (Some d')
      else Ok None
  | _ =>
      has <- py_contains "data" d ;;
      if has then
        container <- py_getitem d "data" ;;
        container' <- for_rows
          match sh with
          | EmailAddressShredder => email_row
          | AttendeeNameShredder => name_row container
          | _ => answer_row container
          end container ;;
        d' <- py_setitem d "data" container' ;;
        Ok (Some d')
      else Ok None
  end.

(** ** The database *)

(** The columns of the record tables the shredders touch.  Rows refer to
    each other by primary key, as the foreign keys do. *)
Record Order : Type := mkOrder {
  o_pk : nat;
  o_event : nat;
  code : string;
  email : option string
}.

Record OrderPosition : Type := mkOrderPosition {
  op_pk : nat;
  op_order : nat;
  positionid : Z;
  attendee_email : option string;
  attendee_name : option string
}.

(** The remaining columns of an invoice address or an answer are read by the
    serializers only; they are kept as one opaque value. *)
Record InvoiceAddress : Type := mkInvoiceAddress {
  ia_pk : nat;
  ia_order : nat;
  ia_columns : json
}.

Record QuestionAnswer : Type := mkQuestionAnswer {
  qa_pk : nat;
  qa_orderposition : nat;
  qa_columns : json
}.

Record Db : Type := mkDb {
  orders : list Order;
  positions : list OrderPosition;
  invoice_addresses : list InvoiceAddress;
  question_answers : list QuestionAnswer;
  logentries : list LogEntry
}.

(** A generated file: name, MIME type, and the document [json.dumps]
    serialises (kept as the value, as for [LogEntry.data]). *)
Definition file : Type := (string * string * json)%type.

(** *** Queries *)

(** [op.order]: the row the foreign key points to. *)
Definition order_of (db : Db) (order_pk : nat) : option Order :=
  find (fun o => o_pk o =? order_pk)%nat (orders db).

(** [order__event=event]. *)
Definition order_in_event (db : Db) (event : nat) (order_pk : nat) : bool :=
  match order_of db order_pk with
  | Some o => (o_event o =? event)%nat
  | None => false
  end.

(** [orderposition__order__event=event]. *)
Definition position_in_event (db : Db) (event : nat) (position_pk : nat) : bool :=
  match find (fun op => op_pk op =? position_pk)%nat (positions db) with
  | Some op => order_in_event db event (op_order op)
  | None => false
  end.

Definition is_some {A : Type} (o : option A) : bool :=
  match o with Some _ => true | None => false end.

(** [event.orders.filter(email__isnull=False)]. *)
Definition orders_with_email (event : nat) (db : Db) : list Order :=
  filter (fun o => (o_event o =? event)%nat && is_some (email o)) (orders db).

(** [OrderPosition.objects.filter(order__event=event)], each row joined with
    its order. *)
Definition positions_of_event (event : nat) (db : Db) : list (OrderPosition * Order) :=
  flat_map (fun op =>
    match order_of db (op_order op) with
    | Some o => if (o_event o =? event)%nat then [(op, o)] else []
    | None => []
    end) (positions db).

(** [op.answers.all()]. *)
Definition answers_of (db : Db) (op : OrderPosition) : list QuestionAnswer :=
  filter (fun a => qa_orderposition a =? op_pk op)%nat (question_answers db).

(** [InvoiceAddress.objects.filter(order__event=event)], joined with the order. *)
Definition invoice_addresses_of_event (event : nat) (db : Db) : list (InvoiceAddress * Order) :=
  flat_map (fun ia =>
    match order_of db (ia_order ia) with
    | Some o => if (o_event o =? event)%nat then [(ia, o)] else []
    | None => []
    end) (invoice_addresses db).

(** [event.logentry_set.filter(...)] with a condition on the row. *)
Definition logentry_set (event : nat) (cond : LogEntry -> bool) (db : Db) : list LogEntry :=
  filter (fun le => (le_event le =? event)%nat && cond le) (logentries db).

(** [action_type__contains="order.email"]. *)
Definition is_order_email (le : LogEntry) : bool :=
  str_contains "order.email" (action_type le).

(** [action_type="pretix.event.order.contact.changed"]. *)
Definition is_contact_changed (le : LogEntry) : bool :=
  action_type le =? "pretix.event.order.contact.changed".

(** [action_type="pretix.event.order.modified"] with [.exclude(data="")]. *)
Definition is_order_modified (le : LogEntry) : bool :=
  (action_type le =? "pretix.event.order.modified") &&
  match data le with TextEmpty => false | _ => true end.

(** *** Updates *)

Definition set_positions (f : list OrderPosition -> list OrderPosition) (db : Db) : Db :=
  mkDb (orders db) (f (positions db)) (invoice_addresses db)
       (question_answers db) (logentries db).

(** [OrderPosition...filter(order__event=event, attendee_email__isnull=False)
     .update(attendee_email=None)]. *)
Definition clear_attendee_emails (event : nat) (db : Db) : Db :=
  set_positions (map (fun op =>
    if order_in_event db event (op_order op) && is_some (attendee_email op)
    then mkOrderPosition (op_pk op) (op_order op) (positionid op) None (attendee_name op)
    else op)) db.

(** [...filter(order__event=event, attendee_name__isnull=False)
     .update(attendee_name=None)]. *)
Definition clear_attendee_names (event : nat) (db : Db) : Db :=
  set_positions (map (fun op =>
    if order_in_event db event (op_order op) && is_some (attendee_name op)
    then mkOrderPosition (op_pk op) (op_order op) (positionid op) (attendee_email op) None
    else op)) db.

(** [event.orders.filter(email__isnull=False).update(email=None)]. *)
Definition clear_order_emails (event : nat) (db : Db) : Db :=
  mkDb (map (fun o =>
          if (o_event o =? event)%nat && is_some (email o)
          then mkOrder (o_pk o) (o_event o) (code o) None else o) (orders db))
       (positions db) (invoice_addresses db) (question_answers db) (logentries db).

(** [InvoiceAddress.objects.filter(order__event=event).delete()]. *)
Definition delete_invoice_addresses (event : nat) (db : Db) : Db :=
  mkDb (orders db) (positions db)
       (filter (fun ia => negb (order_in_event db event (ia_order ia)))
               (invoice_addresses db))
       (question_answers db) (logentries db).

(** [QuestionAnswer.objects.filter(orderposition__order__event=event).delete()]. *)
Definition delete_question_answers (event : nat) (db : Db) : Db :=
  mkDb (orders db) (positions db) (invoice_addresses db)
       (filter (fun a => negb (position_in_event db event (qa_orderposition a)))
               (question_answers db))
       (logentries db).

(** [le.save(update_fields=['data', 'shredded'])]: the two columns of the
    row with the entry's primary key are overwritten. *)
Definition save_logentry (le : LogEntry) (db : Db) : Db :=
  mkDb (orders db) (positions db) (invoice_addresses db) (question_answers db)
       (map (fun r =>
          if (le_pk r =? le_pk le)%nat
          then mkLogEntry (le_pk r) (le_event r) (action_type r) (data le) (shredded le)
          else r) (logentries db)).

(** ** Code that runs against the database *)

(** A computation reads and writes the database and may raise. *)
Definition M (A : Type) : Type := Db -> exc (A * Db).

Definition ret {A : Type} (a : A) : M A := fun db => Ok (a, db).

Definition bindM {A B : Type} (m : M A) (k : A -> M B) : M B :=
  fun db =>
    match m db with
    | Ok (a, db') => k a db'
    | Raise e => Raise e
    end.

Notation "x <~ m ;; k" := (bindM m (fun x => k))
  (at level 100, m at next level, right associativity) : exc_scope.
Notation "m >> k" := (bindM m (fun _ => k))
  (at level 100, right associativity) : exc_scope.

(** A query: reads, never writes. *)
Definition query {A : Type} (q : Db -> A) : M A := fun db => Ok (q db, db).

(** An [update], [delete] or [save]. *)
Definition execute (u : Db -> Db) : M unit := fun db => Ok (tt, u db).

(** Code that does not touch the database. *)
Definition lift {A : Type} (m : exc A) : M A :=
  fun db =>
    match m with
    | Ok a => Ok (a, db)
    | Raise e => Raise e
    end.

(** [for x in l: body(x)]. *)
Fixpoint for_each {A : Type} (l : list A) (body : A -> M unit) : M unit :=
  match l with
  | [] => ret tt
  | x :: r => body x >> for_each r body
  end.

(** [@transaction.atomic]: when the body raises, its writes are rolled back.
    A raising computation carries no database, so the caller is left with
    the one it started from. *)
Definition atomic {A : Type} (m : M A) : M A := m.

(** [shred_log_fields(logentry, blacklist, whitelist)]. *)
Definition shred_log_fields (logentry : LogEntry)
    (blacklist whitelist : option (list string)) : M unit :=
  le <~ lift (shred_log_fields_entry logentry blacklist whitelist) ;;
  execute (save_logentry le).

(** The loop over the "order modified" entries that ends every [shred_data]. *)
Definition shred_order_modified (sh : shredder) (event : nat) : M unit :=
  qs <~ query (logentry_set event is_order_modified) ;;
  for_each qs (fun le =>
    d <~ lift (parsed_data le) ;;
    r <~ lift (mask_order_modified sh d) ;;
    match r with
    | Some d' => execute (save_logentry (rewritten le d'))
    | None => ret tt
    end).

(** [shred_data()] of each shredder, for the event with primary key [event]. *)
Definition shred_data (sh : shredder) (event : nat) : M unit :=
  atomic
    match sh with
    | EmailAddressShredder =>
        execute (clear_attendee_emails event) >>
        execute (clear_order_emails event) >>
        (qs <~ query (logentry_set event is_order_email) ;;
         for_each qs (fun le =>
           shred_log_fields le (Some ["recipient"; "message"]) None)) >>
        (qs <~ query (logentry_set event is_contact_changed) ;;
         for_each qs (fun le =>
           shred_log_fields le (Some ["old_email"; "new_email"]) None)) >>
        shred_order_modified EmailAddressShredder event
    | AttendeeNameShredder =>
        execute (clear_attendee_names event) >>
        shred_order_modified AttendeeNameShredder event
    | InvoiceAddressShredder =>
        execute (delete_invoice_addresses event) >>
        shred_order_modified InvoiceAddressShredder event
    | QuestionAnswerShredder =>
        execute (delete_question_answers event) >>
        shred_order_modified QuestionAnswerShredder event
    end.

(** A dict comprehension [{k: v for ...}]: items are stored one by one, a
    repeated key keeps its first place and takes the last value. *)
Definition dict_comprehension (items : list (string * json)) : dict :=
  fold_left (fun d kv => dict_set (fst kv) (snd kv) d) items [].

(** A nullable text column as a JSON value. *)
Definition json_of_column (c : option string) : json :=
  match c with Some s => JStr s | None => JNull end.

(** ['{}-{}'.format(op.order.code, op.positionid)]. *)
Definition position_key (o : Order) (op : OrderPosition) : string :=
  code o ++ "-" ++ NilZero.string_of_int (Z.to_int (positionid op)).

Section ExportFiles.

(** The two serializers of [pretix.api.serializers.order], which are not
    part of this file: [InvoiceAdddressSerializer(ia).data] and
    [AnswerSerializer(answers, many=True).data]. *)
Variable InvoiceAdddressSerializer : InvoiceAddress -> json.
Variable AnswerSerializer : list QuestionAnswer -> json.

(** [generate_files()] of each shredder: the files the generator yields,
    in order. *)
Definition generate_files (sh : shredder) (event : nat) : M (list file) :=
  match sh with
  | EmailAddressShredder =>
      os <~ query (orders_with_email event) ;;
      ops <~ query (fun db =>
               filter (fun p => is_some (attendee_email (fst p)))
                      (positions_of_event event db)) ;;
      ret [ ("emails-by-order.json", "application/json",
             JDict (dict_comprehension
               (map (fun o => (code o, json_of_column (email o))) os)));
            ("emails-by-attendee.json", "application/json",
             JDict (dict_comprehension
               (map (fun p => (position_key (snd p) (fst p),
                               json_of_column (attendee_email (fst p)))) ops))) ]
  | AttendeeNameShredder =>
      ops <~ query (fun db =>
               filter (fun p => is_some (attendee_name (fst p)))
                      (positions_of_event event db)) ;;
      ret [ ("attendee-names.json", "application/json",
             JDict (dict_comprehension
               (map (fun p => (position_key (snd p) (fst p),
                               json_of_column (attendee_name (fst p)))) ops))) ]
  | InvoiceAddressShredder =>
      ias <~ query (invoice_addresses_of_event event) ;;
      ret [ ("invoice-addresses.json", "application/json",
             JDict (dict_comprehension
               (map (fun p => (code (snd p), InvoiceAdddressSerializer (fst p))) ias))) ]
  | QuestionAnswerShredder =>
      ops <~ query (fun db =>
               map (fun p => (p, answers_of db (fst p)))
                   (positions_of_event event db)) ;;
      ret [ ("question-answers.json", "application/json",
             JDict (dict_comprehension
               (map (fun pa => (position_key (snd (fst pa)) (fst (fst pa)),
                                AnswerSerializer (snd pa))) ops))) ]
  end.

End ExportFiles.

(** ** The specification's wording of the gate, for comparison *)

(** "The later of the event's start and end times", [max(date_from, date_to)]
    over the dates that are set. *)
Definition later_of_start_and_end (event : Event) : option datetime :=
  match date_from event, date_to event with
  | Some f, Some t => Some (Z.max f t)
  | Some f, None => Some f
  | None, Some t => Some t
  | None, None => None
  end.

(** "Not more than 60 days before evaluation time, or the event is live". *)
Definition spec_ineligible (now : datetime) (event : Event) : bool :=
  match later_of_start_and_end event with
  | Some t => (now - sixty_days <=? t)%Z || live event
  | None => live event
  end.

(** ** What the masking loops compute on well-shaped payloads *)

(** Closed forms of the loops, item by item; the lemmas below relate each to
    the loop it describes. *)

(** Blacklist: the value of every listed key becomes the marker. *)
Definition mask_listed (blacklist : list string) (d : dict) : dict :=
  map (fun kv => if in_names (fst kv) blacklist then (fst kv, masked) else kv) d.

(** Whitelist: the value of every key that is not listed becomes the marker. *)
Definition mask_unlisted (whitelist : list string) (d : dict) : dict :=
  map (fun kv => if in_names (fst kv) whitelist then kv else (fst kv, masked)) d.

(** Question answers: every field of a row but the two protected ones. *)
Definition mask_answers (row : dict) : dict :=
  map (fun kv => if protected (fst kv) then kv else (fst kv, masked)) row.

(** Invoice data: every field whose value is truthy. *)
Definition mask_truthy (inv : dict) : dict :=
  map (fun kv => if truthy (snd kv) then (fst kv, masked) else kv) inv.

(** The new version of one row of [data] under each shredder; the invoice
    address shredder does not visit the rows. *)
Definition mask_row (sh : shredder) (row : dict) : dict :=
  match sh with
  | EmailAddressShredder => dict_update "attendee_email" masked row
  | AttendeeNameShredder => dict_update "attendee_name" masked row
  | InvoiceAddressShredder => row
  | QuestionAnswerShredder => mask_answers row
  end.

Definition mask_row_json (sh : shredder) (row : json) : json :=
  match row with
  | JDict r => JDict (mask_row sh r)
  | _ => row
  end.

(** The rewritten payload, when the shredder rewrites the entry. *)
Definition masked_payload (sh : shredder) (d : dict) : option dict :=
  match sh with
  | InvoiceAddressShredder =>
      match dict_get "invoice_data" d with
      | Some (JDict inv) => Some (dict_update "invoice_data" (JDict (mask_truthy inv)) d)
      | _ => None
      end
  | _ =>
      match dict_get "data" d with
      | Some (JList rows) => Some (dict_update "data" (JList (map (mask_row_json sh) rows)) d)
      | _ => None
      end
  end.

(** *** The shape of an "order modified" payload *)

Definition is_dict (v : json) : bool :=
  match v with JDict _ => true | _ => false end.

(** The keys of a dict are pairwise distinct. *)
Fixpoint distinct (l : list string) : bool :=
  match l with
  | [] => true
  | k :: r => negb (in_names k r) && distinct r
  end.

(** A mapping; its [data], if present, is a list of mappings; its
    [invoice_data], if present, is a boolean flag or a mapping. *)
Definition order_modified_shape (p : json) : bool :=
  match p with
  | JDict d =>
      match dict_get "data" d with
      | None => true
      | Some (JList rows) => forallb is_dict rows
      | Some _ => false
      end &&
      match dict_get "invoice_data" d with
      | None | Some (JBool _) => true
      | Some (JDict inv) => distinct (keys inv)
      | Some _ => false
      end
  | _ => false
  end.

(** A masking rule: the redaction primitive with its two arguments, or the
    loop body of a shredder on an "order modified" entry. *)
Inductive rule : Type :=
| LogFields (blacklist whitelist : option (list string))
| OrderModified (sh : shredder).

(** The payload a rule leaves in the entry. *)
Definition apply_rule (R : rule) (p : json) : exc json :=
  match R with
  | LogFields blacklist whitelist => mask_log_fields blacklist whitelist p
  | OrderModified sh =>
      r <- mask_order_modified sh p ;;
      Ok match r with Some p' => p' | None => p end
  end.

(** The payloads a rule is written for: any mapping for the redaction
    primitive, an "order modified" payload for a shredder's loop body. *)
Definition rule_domain (R : rule) (p : json) : bool :=
  match R with
  | LogFields _ _ => is_dict p
  | OrderModified _ => order_modified_shape p
  end.

(** Field [f] of row [i] of the payload's [data] list. *)
Definition row_field (d : dict) (i : nat) (f : string) : option json :=
  match dict_get "data" d with
  | Some (JList rows) =>
      match nth_error rows i with
      | Some (JDict r) => dict_get f r
      | _ => None
      end
  | _ => None
  end.

(** The top-level key under which a shredder masks. *)
Definition section_key (sh : shredder) : string :=
  match sh with
  | InvoiceAddressShredder => "invoice_data"
  | _ => "data"
  end.

(** The row fields a shredder owns. *)
Definition owns_row_field (sh : shredder) (f : string) : bool :=
  match sh with
  | EmailAddressShredder => f =? "attendee_email"
  | AttendeeNameShredder => f =? "attendee_name"
  | InvoiceAddressShredder => false
  | QuestionAnswerShredder => negb (protected f)
  end.

(** *** The payloads of the specification's scenarios *)

Definition jane_row : json :=
  JDict [("attendee_name", JStr "Jane Doe"); ("attendee_email", JStr "j@x.com")].

Definition jane_payload : json := JDict [("data", JList [jane_row])].

Definition acme_payload : json :=
  JDict [("invoice_data", JDict [("company", JStr "Acme"); ("vat_id", JStr "")])].

Definition acme_answers_payload : json :=
  JDict [("data", JList [JDict [("attendee_name", JStr "Jane Doe");
                                ("attendee_email", JStr "j@x.com");
                                ("question_3", JStr "vegan")]]);
         ("invoice_data", JDict [("company", JStr "Acme"); ("vat_id", JStr "")])].

(** *** What [shred_data] leaves behind *)

(** The payload has the section the shredder masks in: a [data] key, or for
    the invoice address shredder an [invoice_data] that is not a flag. *)
Definition has_section (sh : shredder) (p : json) : bool :=
  match p with
  | JDict d =>
      match sh with
      | InvoiceAddressShredder =>
          match dict_get "invoice_data" d with
          | Some v => negb (is_bool v)
          | None => false
          end
      | _ => dict_has "data" d
      end
  | _ => false
  end.

(** The entries a shredder's loops visit. *)
Definition scanned (sh : shredder) (event : nat) (le : LogEntry) : bool :=
  (le_event le =? event)%nat &&
  (is_order_modified le ||
   match sh with
   | EmailAddressShredder => is_order_email le || is_contact_changed le
   | _ => false
   end).

(** The entries a shredder's loops rewrite: those of the two e-mail scans,
    and the "order modified" ones whose payload has the shredder's section. *)
Definition rewritten_by (sh : shredder) (event : nat) (le : LogEntry) : bool :=
  (le_event le =? event)%nat &&
  ((is_order_modified le &&
    match data le with TextJson p => has_section sh p | _ => false end) ||
   match sh with
   | EmailAddressShredder => is_order_email le || is_contact_changed le
   | _ => false
   end).

(** The record fields a shredder targets are null, or its rows are gone. *)
Definition records_shredded (sh : shredder) (event : nat) (db : Db) : Prop :=
  match sh with
  | EmailAddressShredder =>
      (forall o, In o (orders db) -> o_event o = event -> email o = None) /\
      (forall op, In op (positions db) ->
                  order_in_event db event (op_order op) = true ->
                  attendee_email op = None)
  | AttendeeNameShredder =>
      forall op, In op (positions db) ->
                 order_in_event db event (op_order op) = true ->
                 attendee_name op = None
  | InvoiceAddressShredder =>
      forall ia, In ia (invoice_addresses db) ->
                 order_in_event db event (ia_order ia) = false
  | QuestionAnswerShredder =>
      forall a, In a (question_answers db) ->
                position_in_event db event (qa_orderposition a) = false
  end.

(** *** The loops over log entries *)

(** The common form of the loop bodies: a computation on the entry that
    yields the payload to write, if any, followed by the [save]. *)
Definition loop_body (payload : LogEntry -> exc (option json)) (le : LogEntry) : M unit :=
  r <~ lift (payload le) ;;
  match r with
  | Some d' => execute (save_logentry (rewritten le d'))
  | None => ret tt
  end.

(** The payload [shred_log_fields] writes. *)
Definition primitive_payload (blacklist whitelist : option (list string))
    (le : LogEntry) : exc (option json) :=
  d <- parsed_data le ;;
  d' <- mask_log_fields blacklist whitelist d ;;
  Ok (Some d').

(** The payload a shredder's "order modified" loop writes. *)
Definition modified_payload (sh : shredder) (le : LogEntry) : exc (option json) :=
  d <- parsed_data le ;; mask_order_modified sh d.

(** How a row of the log table can change while a shredder runs: it keeps
    its key, event and action type, and it is either as before or flagged. *)
Definition evolves (r r' : LogEntry) : Prop :=
  le_pk r' = le_pk r /\ le_event r' = le_event r /\
  action_type r' = action_type r /\
  (shredded r' = true \/ r' = r).

(** The record tables of two databases are the same. *)
Definition same_records (db db' : Db) : Prop :=
  orders db' = orders db /\ positions db' = positions db /\
  invoice_addresses db' = invoice_addresses db /\
  question_answers db' = question_answers db.

(** *** A small database for the scenarios *)

Definition mail_entry : LogEntry :=
  mkLogEntry 1 7 "pretix.event.order.email.sent"
    (TextJson (JDict [("recipient", JStr "j@x.com"); ("subject", JStr "Your order");
                      ("message", JStr "Hello Jane")])) false.

Definition modified_entry : LogEntry :=
  mkLogEntry 2 7 "pretix.event.order.modified" (TextJson acme_answers_payload) false.

(** An "order modified" entry that records a change of the invoice address
    only: its payload has no [data] list. *)
Definition invoice_only_entry : LogEntry :=
  mkLogEntry 3 7 "pretix.event.order.modified" (TextJson acme_payload) false.

Definition shop : Db :=
  mkDb [mkOrder 10 7 "ABC12" (Some "j@x.com"); mkOrder 11 8 "XYZ99" (Some "k@y.org")]
       [mkOrderPosition 20 10 1%Z (Some "j@x.com") (Some "Jane Doe");
        mkOrderPosition 21 11 1%Z (Some "k@y.org") (Some "Kim")]
       [mkInvoiceAddress 30 10 (JDict [("company", JStr "Acme")])]
       [mkQuestionAnswer 40 20 (JStr "vegan")]
       [mail_entry; modified_entry; invoice_only_entry].

(** *** Chaining the shredders on one payload *)

(** The payload a shredder's loop body leaves: the rewritten one, or the
    payload as it was when the guard fails. *)
Definition after (sh : shredder) (d : dict) : dict :=
  match masked_payload sh d with
  | Some d' => d'
  | None => d
  end.

(** Field [f] of the payload's [invoice_data] mapping. *)
Definition invoice_data_field (d : dict) (f : string) : option json :=
  match dict_get "invoice_data" d with
  | Some (JDict inv) => dict_get f inv
  | _ => None
  end.

(** Running the loop bodies of several shredders one after the other. *)
Definition apply_all (shs : list shredder) (p : json) : exc json :=
  foldM (fun q sh => apply_rule (OrderModified sh) q) shs p.

(** The shredder that masks inside [invoice_data]. *)
Definition masks_invoice_data (sh : shredder) : bool :=
  match sh with InvoiceAddressShredder => true | _ => false end.

(** *** The log table, row by row *)

(** What [save_logentry le] makes of one row. *)
Definition saved_row (le r : LogEntry) : LogEntry :=
  if (le_pk r =? le_pk le)%nat
  then mkLogEntry (le_pk r) (le_event r) (action_type r) (data le) (shredded le)
  else r.

(** One iteration of a loop, seen from one row of the table. *)
Definition row_step (payload : LogEntry -> exc (option json))
    (r le : LogEntry) : LogEntry :=
  match payload le with
  | Ok (Some d') => saved_row (rewritten le d') r
  | _ => r
  end.

(** What a scan makes of a row when primary keys are unique: a selected
    entry whose loop body yields a payload is rewritten with it. *)
Definition scan_row (event : nat) (sel : LogEntry -> bool)
    (payload : LogEntry -> exc (option json)) (r : LogEntry) : LogEntry :=
  if (le_event r =? event)%nat && sel r
  then match payload r with
       | Ok (Some d') => rewritten r d'
       | _ => r
       end
  else r.

(** What [shred_data] makes of a row: its scans, in the order they run. *)
Definition shredded_row (sh : shredder) (event : nat) (r : LogEntry) : LogEntry :=
  match sh with
  | EmailAddressShredder =>
      scan_row event is_order_modified (modified_payload sh)
        (scan_row event is_contact_changed
           (primitive_payload (Some ["old_email"; "new_email"]) None)
           (scan_row event is_order_email
              (primitive_payload (Some ["recipient"; "message"]) None) r))
  | _ => scan_row event is_order_modified (modified_payload sh) r
  end.

(** Every "order modified" entry of the event that parses has a payload of
    the expected shape. *)
Definition well_shaped_log (event : nat) (db : Db) : Prop :=
  forall r p,
    In r (logentries db) -> le_event r = event ->
    is_order_modified r = true -> data r = TextJson p ->
    order_modified_shape p = true.

(** *** The two halves of [shred_data] *)

(** The [update] and [delete] statements [shred_data] starts with. *)
Definition update_records (sh : shredder) (event : nat) (db : Db) : Db :=
  match sh with
  | EmailAddressShredder => clear_order_emails event (clear_attendee_emails event db)
  | AttendeeNameShredder => clear_attendee_names event db
  | InvoiceAddressShredder => delete_invoice_addresses event db
  | QuestionAnswerShredder => delete_question_answers event db
  end.

(** The loops over log entries it goes on with. *)
Definition scan_logentries (sh : shredder) (event : nat) : M unit :=
  match sh with
  | EmailAddressShredder =>
      (qs <~ query (logentry_set event is_order_email) ;;
       for_each qs (fun le =>
         shred_log_fields le (Some ["recipient"; "message"]) None)) >>
      (qs <~ query (logentry_set event is_contact_changed) ;;
       for_each qs (fun le =>
         shred_log_fields le (Some ["old_email"; "new_email"]) None)) >>
      shred_order_modified EmailAddressShredder event
  | _ => shred_order_modified sh event
  end.

(** * Properties *)

(** ** The eligibility gate *)

Lemma shred_constraints_dated (now : datetime) (event : Event) (t : datetime) :
  date_to_or_date_from event = Some t ->
  shred_constraints now event =
    Ok (if (t >? now - sixty_days)%Z then Some msg_not_over
        else if live event then Some msg_not_offline else None).
Proof.
  intros Ht. unfold shred_constraints. rewrite Ht.
  destruct (t >? now - sixty_days)%Z; [reflexivity|].
  destruct (live event); reflexivity.
Qed.

Lemma some_date (event : Event) :
  date_from event <> None \/ date_to event <> None ->
  exists t, date_to_or_date_from event = Some t.
Proof.
  unfold date_to_or_date_from.
  destruct (date_to event) as [t|]; [intros _; eauto|].
  destruct (date_from event) as [f|]; [intros _; eauto|].
  intros [H|H]; congruence.
Qed.

(** C1 as stated fails in two places: an event whose end lies exactly 60 days
    back is eligible, although its end is "not more than 60 days" back; and
    when the start is later than the end, the end alone decides (here the
    event ended 120 days ago and its start is the evaluation time itself). *)
Lemma C1_counterexample :
  (shred_constraints sixty_days (mkEvent (Some 0%Z) (Some 0%Z) false) = Ok None /\
   spec_ineligible sixty_days (mkEvent (Some 0%Z) (Some 0%Z) false) = true) /\
  (shred_constraints (2 * sixty_days)%Z
     (mkEvent (Some (2 * sixty_days)%Z) (Some 0%Z) false) = Ok None /\
   spec_ineligible (2 * sixty_days)%Z
     (mkEvent (Some (2 * sixty_days)%Z) (Some 0%Z) false) = true).
Proof. repeat split; reflexivity. Qed.

(** C1, amended: for an event with a start or an end date, the gate returns,
    and it returns a reason exactly when the end date (the start date when no
    end is set) is less than 60 days before the evaluation time, or the event
    is live.  That date is the later of the two whenever the start is not
    after the end. *)
Theorem shred_constraints_reason_iff (now : datetime) (event : Event) :
  date_from event <> None \/ date_to event <> None ->
  exists t r,
    date_to_or_date_from event = Some t /\
    shred_constraints now event = Ok r /\
    (r <> None <-> (now - t < sixty_days)%Z \/ live event = true) /\
    ((forall f e, date_from event = Some f -> date_to event = Some e -> (f <= e)%Z) ->
     later_of_start_and_end event = Some t).
Proof.
  intros Hd. destruct (some_date event Hd) as [t Ht].
  exists t. eexists. split; [exact Ht|]. split; [apply shred_constraints_dated, Ht|].
  split.
  - destruct (Z.gtb_spec t (now - sixty_days)) as [Hgt|Hle].
    + split; [intros _; left; lia | intros _; discriminate].
    + destruct (live event).
      * split; [intros _; right; reflexivity | intros _; discriminate].
      * split; [intros H; congruence | intros [H|H]; [lia | discriminate]].
  - intros Hord. unfold date_to_or_date_from in Ht. unfold later_of_start_and_end.
    destruct (date_from event) as [f|], (date_to event) as [e|]; try congruence.
    specialize (Hord f e eq_refl eq_refl). inversion Ht; subst. f_equal. lia.
Qed.

Lemma shred_constraints_reason_iff_witness :
  exists t r,
    date_to_or_date_from (mkEvent (Some 0%Z) None true) = Some t /\
    shred_constraints (3 * sixty_days)%Z (mkEvent (Some 0%Z) None true) = Ok r /\
    (r <> None <-> (3 * sixty_days - t < sixty_days)%Z \/ true = true) /\
    ((forall f e, Some 0%Z = Some f -> @None datetime = Some e -> (f <= e)%Z) ->
     later_of_start_and_end (mkEvent (Some 0%Z) None true) = Some t).
Proof.
  apply (shred_constraints_reason_iff (3 * sixty_days)%Z (mkEvent (Some 0%Z) None true)).
  left. discriminate.
Defined.

(** C3 as stated fails: a live event that is not over for 60 days gets the
    "60 days" reason, not the "shop offline" one. *)
Lemma C3_counterexample :
  live (mkEvent (Some 0%Z) (Some 0%Z) true) = true /\
  shred_constraints 0%Z (mkEvent (Some 0%Z) (Some 0%Z) true) = Ok (Some msg_not_over) /\
  msg_not_over <> msg_not_offline.
Proof. repeat split; discriminate. Qed.

(** C3, amended: a live event with a start or an end date always gets a
    reason, the "shop offline" one when its end date (start date when no end
    is set) is at least 60 days before the evaluation time and the "60 days"
    one otherwise; an event that ended more than 60 days before the
    evaluation time and is not live gets none. *)
Theorem shred_constraints_live (now : datetime) (event : Event) (t : datetime) :
  date_to_or_date_from event = Some t ->
  (live event = true ->
   shred_constraints now event =
     Ok (Some (if (now - t <? sixty_days)%Z then msg_not_over else msg_not_offline))) /\
  (live event = false -> (now - t > sixty_days)%Z ->
   shred_constraints now event = Ok None).
Proof.
  intros Ht. rewrite (shred_constraints_dated now event t Ht). split.
  - intros ->.
    destruct (Z.gtb_spec t (now - sixty_days)), (Z.ltb_spec (now - t) sixty_days);
      solve [reflexivity | lia].
  - intros -> Hlt.
    destruct (Z.gtb_spec t (now - sixty_days)); [lia | reflexivity].
Qed.

Lemma shred_constraints_live_witness :
  (true = true ->
   shred_constraints (90 * 86400 * 1000000)%Z (mkEvent None (Some 0%Z) true) =
     Ok (Some (if (90 * 86400 * 1000000 - 0 <? sixty_days)%Z
               then msg_not_over else msg_not_offline))) /\
  (true = false -> (90 * 86400 * 1000000 - 0 > sixty_days)%Z ->
   shred_constraints (90 * 86400 * 1000000)%Z (mkEvent None (Some 0%Z) true) = Ok None).
Proof.
  apply (shred_constraints_live (90 * 86400 * 1000000)%Z (mkEvent None (Some 0%Z) true) 0%Z).
  reflexivity.
Defined.

(** ** Dicts *)

Lemma dict_has_get (k : string) (d : dict) :
  dict_has k d = is_some (dict_get k d).
Proof.
  induction d as [|[k' v] d IH]; simpl; [reflexivity|].
  destruct (k' =? k); simpl; [reflexivity | exact IH].
Qed.

Lemma dict_has_in_names (k : string) (d : dict) :
  dict_has k d = in_names k (keys d).
Proof.
  induction d as [|[k' v] d IH]; simpl; [reflexivity|].
  rewrite IH, (String.eqb_sym k' k). reflexivity.
Qed.

Lemma keys_dict_update (k : string) (v : json) (d : dict) :
  keys (dict_update k v d) = keys d.
Proof.
  unfold keys, dict_update. rewrite map_map. apply map_ext.
  intros [k' v']; simpl. destruct (k' =? k); reflexivity.
Qed.

Lemma dict_update_absent (k : string) (v : json) (d : dict) :
  dict_has k d = false -> dict_update k v d = d.
Proof.
  induction d as [|[k' v'] d IH]; simpl; [reflexivity|].
  destruct (k' =? k); simpl; [discriminate|].
  intros H. rewrite (IH H). reflexivity.
Qed.

(** Assigning to a key stores the value under it when the key is present,
    and in any case when the assignment is guarded by [if k in d]. *)
Lemma guarded_set (k : string) (v : json) (d : dict) :
  (if dict_has k d then dict_set k v d else d) = dict_update k v d.
Proof.
  unfold dict_set. destruct (dict_has k d) eqn:H; [reflexivity|].
  symmetry. apply dict_update_absent, H.
Qed.

Lemma dict_set_present (k : string) (v : json) (d : dict) :
  dict_has k d = true -> dict_set k v d = dict_update k v d.
Proof. intros H. unfold dict_set. rewrite H. reflexivity. Qed.

Lemma dict_has_update (k' k : string) (v : json) (d : dict) :
  dict_has k' (dict_update k v d) = dict_has k' d.
Proof. rewrite !dict_has_in_names, keys_dict_update. reflexivity. Qed.

Lemma dict_get_update_same (k : string) (v : json) (d : dict) :
  dict_get k (dict_update k v d) = if dict_has k d then Some v else None.
Proof.
  induction d as [|[k' v'] d IH]; simpl; [reflexivity|].
  destruct (k' =? k) eqn:E; simpl; rewrite E; simpl; [reflexivity | exact IH].
Qed.

Lemma dict_get_update_other (k' k : string) (v : json) (d : dict) :
  k' <> k -> dict_get k' (dict_update k v d) = dict_get k' d.
Proof.
  intros Hne. induction d as [|[k0 v0] d IH]; simpl; [reflexivity|].
  destruct (k0 =? k) eqn:E; simpl.
  - apply String.eqb_eq in E. subst k0.
    destruct (k =? k') eqn:E'; [apply String.eqb_eq in E'; congruence | exact IH].
  - destruct (k0 =? k'); [reflexivity | exact IH].
Qed.

Lemma dict_update_twice (k : string) (v w : json) (d : dict) :
  dict_update k w (dict_update k v d) = dict_update k w d.
Proof.
  unfold dict_update. rewrite map_map. apply map_ext.
  intros [k' v']; simpl. destruct (k' =? k) eqn:E; simpl; rewrite E; reflexivity.
Qed.

Lemma in_names_In (k : string) (l : list string) :
  in_names k l = true <-> In k l.
Proof.
  unfold in_names. rewrite existsb_exists. split.
  - intros [x [Hx E]]. apply String.eqb_eq in E. subst. exact Hx.
  - intros H. exists k. split; [exact H | apply String.eqb_refl].
Qed.

Lemma distinct_NoDup (l : list string) : distinct l = true -> NoDup l.
Proof.
  induction l as [|k l IH]; simpl; intros H; [constructor|].
  apply andb_true_iff in H. destruct H as [Hk Hl].
  constructor; [|apply IH, Hl].
  intros Hin. apply in_names_In in Hin. rewrite Hin in Hk. discriminate.
Qed.

(** With distinct keys, the item found in a dict is the one [dict_get] returns. *)
Lemma dict_get_In (k : string) (v : json) (d : dict) :
  NoDup (keys d) -> In (k, v) d -> dict_get k d = Some v.
Proof.
  induction d as [|[k0 v0] d IH]; simpl; intros Hnd Hin; [contradiction|].
  inversion Hnd as [|? ? Hnotin Hnd']; subst.
  destruct Hin as [E|Hin].
  - inversion E; subst. rewrite String.eqb_refl. reflexivity.
  - destruct (k0 =? k) eqn:E.
    + apply String.eqb_eq in E. subst k0. exfalso. apply Hnotin.
      change k with (fst (k, v)). apply in_map, Hin.
    + apply IH; assumption.
Qed.

(** ** The loops of the redaction primitive *)

Lemma blacklist_step_dict (d : dict) (f : string) :
  blacklist_step (JDict d) f = Ok (JDict (dict_update f masked d)).
Proof.
  unfold blacklist_step; simpl.
  rewrite <- guarded_set. destruct (dict_has f d); reflexivity.
Qed.

Lemma blacklist_loop (blacklist : list string) (d : dict) :
  foldM blacklist_step blacklist (JDict d) = Ok (JDict (mask_listed blacklist d)).
Proof.
  revert d. induction blacklist as [|f bl IH]; intros d.
  - simpl. unfold mask_listed. simpl. rewrite map_id. reflexivity.
  - cbn [foldM]. rewrite blacklist_step_dict. cbn [bind]. rewrite IH.
    do 2 f_equal. unfold mask_listed, dict_update. rewrite map_map.
    apply map_ext. intros [k v]. simpl. rewrite (String.eqb_sym k f).
    destruct (f =? k); simpl; [|reflexivity].
    destruct (in_names k bl); reflexivity.
Qed.

(** A loop over keys of [d] that overwrites the value of each key [keep]
    rejects: the shape of the whitelist loop and of the answers loop. *)
Lemma overwrite_loop_from (keep : string -> bool) (ks : list string) (d : dict) :
  incl ks (keys d) ->
  fold_left (fun d k => if keep k then d else dict_set k masked d) ks d =
  map (fun kv => if keep (fst kv) || negb (in_names (fst kv) ks)
                 then kv else (fst kv, masked)) d.
Proof.
  revert d. induction ks as [|k ks IH]; intros d Hincl.
  - simpl. erewrite map_ext; [symmetry; apply map_id|].
    intros kv. rewrite orb_true_r. reflexivity.
  - simpl. assert (Hk : dict_has k d = true).
    { rewrite dict_has_in_names. apply in_names_In, Hincl. left. reflexivity. }
    rewrite (dict_set_present _ _ _ Hk), IH.
    + destruct (keep k) eqn:Hw.
      * apply map_ext. intros [k' v]. simpl.
        destruct (String.eqb_spec k' k) as [->|Hne]; simpl.
        -- rewrite Hw. reflexivity.
        -- reflexivity.
      * unfold dict_update. rewrite map_map. apply map_ext. intros [k' v]. simpl.
        destruct (String.eqb_spec k' k) as [->|Hne]; simpl.
        -- rewrite Hw. simpl. destruct (in_names k ks); reflexivity.
        -- reflexivity.
    + destruct (keep k); [|rewrite keys_dict_update];
        intros x Hx; apply Hincl; right; exact Hx.
Qed.

Lemma overwrite_loop (keep : string -> bool) (d : dict) :
  fold_left (fun d k => if keep k then d else dict_set k masked d) (keys d) d =
  map (fun kv => if keep (fst kv) then kv else (fst kv, masked)) d.
Proof.
  rewrite overwrite_loop_from by apply incl_refl.
  apply map_ext_in. intros [k v] Hin. simpl.
  assert (H : in_names k (keys d) = true).
  { apply in_names_In. change k with (fst (k, v)). apply in_map, Hin. }
  rewrite H. simpl. rewrite orb_false_r. reflexivity.
Qed.

Lemma whitelist_loop (whitelist : list string) (d : dict) :
  fold_left (whitelist_step whitelist) (keys d) d = mask_unlisted whitelist d.
Proof. apply (overwrite_loop (fun k => in_names k whitelist)). Qed.


(** ** The row loops of the shredders *)

Lemma mapM_dicts (body : json -> exc json) (g : json -> json) (rows : list json) :
  (forall r, body (JDict r) = Ok (g (JDict r))) ->
  forallb is_dict rows = true ->
  mapM body rows = Ok (map g rows).
Proof.
  intros Hbody. induction rows as [|row rows IH]; simpl; intros H; [reflexivity|].
  apply andb_true_iff in H. destruct H as [Hrow Hrows].
  destruct row; try discriminate.
  rewrite Hbody. simpl. rewrite (IH Hrows). reflexivity.
Qed.

Lemma email_row_dict (r : dict) :
  email_row (JDict r) = Ok (mask_row_json EmailAddressShredder (JDict r)).
Proof.
  unfold email_row; simpl. rewrite <- guarded_set.
  destruct (dict_has "attendee_email" r); reflexivity.
Qed.

Lemma name_row_dict (rows : list json) (r : dict) :
  name_row (JList rows) (JDict r) = Ok (mask_row_json AttendeeNameShredder (JDict r)).
Proof.
  unfold name_row; simpl. rewrite <- guarded_set.
  destruct (dict_has "attendee_name" r); reflexivity.
Qed.

Lemma answer_fields_fold (rows : list json) (ks : list string) (r : dict) :
  foldM (answer_field (JList rows)) ks (JDict r) =
  Ok (JDict (fold_left (fun d k => if protected k then d else dict_set k masked d) ks r)).
Proof.
  revert r. induction ks as [|k ks IH]; intros r; [reflexivity|].
  cbn [foldM fold_left]. unfold answer_field at 1.
  destruct (protected k); cbn [subscript_row py_setitem bind]; apply IH.
Qed.

Lemma answer_row_dict (rows : list json) (r : dict) :
  answer_row (JList rows) (JDict r) = Ok (mask_row_json QuestionAnswerShredder (JDict r)).
Proof.
  unfold answer_row. rewrite answer_fields_fold, overwrite_loop. reflexivity.
Qed.

Lemma truthy_masked : truthy masked = true.
Proof. reflexivity. Qed.

Lemma invoice_loop_from (ks : list string) (r : dict) :
  NoDup (keys r) -> incl ks (keys r) ->
  foldM invoice_field ks (JDict r) =
  Ok (JDict (map (fun kv => if in_names (fst kv) ks && truthy (snd kv)
                            then (fst kv, masked) else kv) r)).
Proof.
  revert r. induction ks as [|k ks IH]; intros r Hnd Hincl.
  - simpl. rewrite map_id. reflexivity.
  - cbn [foldM]. unfold invoice_field at 1. cbn [py_getitem].
    assert (Hk : dict_has k r = true).
    { rewrite dict_has_in_names. apply in_names_In, Hincl. left. reflexivity. }
    pose proof Hk as Hget. rewrite dict_has_get in Hget.
    destruct (dict_get k r) as [v0|] eqn:Hv0; [clear Hget | discriminate].
    cbn [bind].
    assert (Hsame : forall k' v, In (k', v) r -> k' = k -> v = v0).
    { intros k' v Hin ->. pose proof (dict_get_In k v r Hnd Hin). congruence. }
    destruct (truthy v0) eqn:Ht.
    + cbn [py_setitem bind]. rewrite (dict_set_present _ _ _ Hk), IH.
      * do 2 f_equal. unfold dict_update. rewrite map_map.
        apply map_ext_in. intros [k' v] Hin. simpl.
        destruct (String.eqb_spec k' k) as [->|Hne]; simpl.
        -- rewrite (Hsame k v Hin eq_refl), Ht.
           destruct (in_names k ks); reflexivity.
        -- reflexivity.
      * rewrite keys_dict_update. exact Hnd.
      * rewrite keys_dict_update. intros x Hx. apply Hincl. right. exact Hx.
    + cbn [bind]. rewrite IH; [|exact Hnd|intros x Hx; apply Hincl; right; exact Hx].
      do 2 f_equal. apply map_ext_in. intros [k' v] Hin. simpl.
      destruct (String.eqb_spec k' k) as [->|Hne]; simpl; [|reflexivity].
      rewrite (Hsame k v Hin eq_refl), Ht, andb_false_r. reflexivity.
Qed.

Lemma invoice_fields_dict (r : dict) :
  NoDup (keys r) ->
  invoice_fields (JDict r) = Ok (JDict (mask_truthy r)).
Proof.
  intros Hnd. unfold invoice_fields.
  rewrite invoice_loop_from; [|exact Hnd|apply incl_refl].
  do 2 f_equal. apply map_ext_in. intros [k v] Hin. simpl.
  assert (H : in_names k (keys r) = true).
  { apply in_names_In. change k with (fst (k, v)). apply in_map, Hin. }
  rewrite H. reflexivity.
Qed.

(** ** The loop body on a well-shaped payload *)

Lemma sh_is_invoice (sh : shredder) :
  sh = InvoiceAddressShredder \/ sh <> InvoiceAddressShredder.
Proof. destruct sh; (left; reflexivity) || (right; discriminate). Qed.

Lemma mask_rows_closed (sh : shredder) (d : dict) (rows : list json) :
  sh <> InvoiceAddressShredder ->
  dict_get "data" d = Some (JList rows) ->
  forallb is_dict rows = true ->
  mask_order_modified sh (JDict d) =
  Ok (Some (JDict (dict_update "data" (JList (map (mask_row_json sh) rows)) d))).
Proof.
  intros Hsh Hget Hrows.
  assert (Hhas : dict_has "data" d = true) by (rewrite dict_has_get, Hget; reflexivity).
  assert (Hloop : for_rows match sh with
                           | EmailAddressShredder => email_row
                           | AttendeeNameShredder => name_row (JList rows)
                           | _ => answer_row (JList rows)
                           end (JList rows) = Ok (JList (map (mask_row_json sh) rows))).
  { unfold for_rows. erewrite mapM_dicts; [reflexivity| |exact Hrows].
    intros r. destruct sh; [apply email_row_dict | apply name_row_dict
                            | congruence | apply answer_row_dict]. }
  destruct sh; try congruence;
    unfold mask_order_modified; cbn [py_contains py_getitem bind];
    rewrite Hhas, Hget; cbn [bind]; rewrite Hloop; cbn [bind py_setitem];
    rewrite (dict_set_present _ _ _ Hhas); reflexivity.
Qed.

Lemma mask_invoice_closed (d inv : dict) :
  dict_get "invoice_data" d = Some (JDict inv) ->
  distinct (keys inv) = true ->
  mask_order_modified InvoiceAddressShredder (JDict d) =
  Ok (Some (JDict (dict_update "invoice_data" (JDict (mask_truthy inv)) d))).
Proof.
  intros Hget Hnd.
  assert (Hhas : dict_has "invoice_data" d = true)
    by (rewrite dict_has_get, Hget; reflexivity).
  unfold mask_order_modified; cbn [py_contains py_getitem bind].
  rewrite Hhas, Hget; cbn [bind is_bool].
  rewrite (invoice_fields_dict inv (distinct_NoDup _ Hnd)); cbn [bind py_setitem].
  rewrite (dict_set_present _ _ _ Hhas). reflexivity.
Qed.

(** On a well-shaped payload the loop body never raises and computes
    [masked_payload]. *)
Lemma mask_order_modified_shape (sh : shredder) (d : dict) :
  order_modified_shape (JDict d) = true ->
  mask_order_modified sh (JDict d) = Ok (option_map JDict (masked_payload sh d)).
Proof.
  intros Hshape. cbn [order_modified_shape] in Hshape.
  apply andb_true_iff in Hshape. destruct Hshape as [Hdata Hinv].
  destruct (sh_is_invoice sh) as [->|Hsh].
  - cbn [masked_payload].
    destruct (dict_get "invoice_data" d) as [inv|] eqn:Hget.
    + destruct inv; try discriminate.
      * unfold mask_order_modified; cbn [py_contains py_getitem bind].
        rewrite dict_has_get, Hget. reflexivity.
      * rewrite (mask_invoice_closed d d0 Hget Hinv). reflexivity.
    + unfold mask_order_modified; cbn [py_contains bind].
      rewrite dict_has_get, Hget. reflexivity.
  - assert (Hmp : masked_payload sh d =
             match dict_get "data" d with
             | Some (JList rows) =>
                 Some (dict_update "data" (JList (map (mask_row_json sh) rows)) d)
             | _ => None
             end) by (destruct sh; try reflexivity; congruence).
    rewrite Hmp.
    destruct (dict_get "data" d) as [c|] eqn:Hget.
    + destruct c; try discriminate.
      rewrite (mask_rows_closed sh d l Hsh Hget Hdata). reflexivity.
    + destruct sh; try congruence;
        unfold mask_order_modified; cbn [py_contains bind];
        rewrite dict_has_get, Hget; reflexivity.
Qed.

(** ** Idempotence *)

Lemma mask_listed_twice (bl : list string) (d : dict) :
  mask_listed bl (mask_listed bl d) = mask_listed bl d.
Proof.
  unfold mask_listed. rewrite map_map. apply map_ext. intros [k v]; simpl.
  destruct (in_names k bl) eqn:E; simpl; rewrite E; reflexivity.
Qed.

Lemma mask_unlisted_twice (wl : list string) (d : dict) :
  mask_unlisted wl (mask_unlisted wl d) = mask_unlisted wl d.
Proof.
  unfold mask_unlisted. rewrite map_map. apply map_ext. intros [k v]; simpl.
  destruct (in_names k wl) eqn:E; simpl; rewrite E; reflexivity.
Qed.

Lemma mask_answers_twice (r : dict) :
  mask_answers (mask_answers r) = mask_answers r.
Proof.
  unfold mask_answers. rewrite map_map. apply map_ext. intros [k v]; simpl.
  destruct (protected k) eqn:E; simpl; rewrite E; reflexivity.
Qed.

Lemma mask_truthy_twice (r : dict) :
  mask_truthy (mask_truthy r) = mask_truthy r.
Proof.
  unfold mask_truthy. rewrite map_map. apply map_ext. intros [k v]; simpl.
  destruct (truthy v) eqn:E; simpl; [reflexivity | rewrite E; reflexivity].
Qed.

Lemma keys_mask_truthy (r : dict) : keys (mask_truthy r) = keys r.
Proof.
  unfold keys, mask_truthy. rewrite map_map. apply map_ext.
  intros [k v]; simpl. destruct (truthy v); reflexivity.
Qed.

Lemma keys_mask_answers (r : dict) : keys (mask_answers r) = keys r.
Proof.
  unfold keys, mask_answers. rewrite map_map. apply map_ext.
  intros [k v]; simpl. destruct (protected k); reflexivity.
Qed.

Lemma keys_mask_row (sh : shredder) (r : dict) : keys (mask_row sh r) = keys r.
Proof.
  destruct sh; simpl; auto using keys_dict_update, keys_mask_answers.
Qed.

Lemma mask_row_json_twice (sh : shredder) (row : json) :
  mask_row_json sh (mask_row_json sh row) = mask_row_json sh row.
Proof.
  destruct row; try reflexivity. simpl. f_equal.
  destruct sh; simpl; auto using dict_update_twice, mask_answers_twice.
Qed.

Lemma mask_row_json_dicts (sh : shredder) (rows : list json) :
  forallb is_dict rows = true ->
  forallb is_dict (map (mask_row_json sh) rows) = true.
Proof.
  induction rows as [|row rows IH]; simpl; [reflexivity|].
  intros H. apply andb_true_iff in H. destruct H as [Hrow Hrows].
  rewrite (IH Hrows), andb_true_r. destruct row; try discriminate. reflexivity.
Qed.

Lemma mask_log_fields_dict (bl wl : option (list string)) (d : dict) :
  mask_log_fields bl wl (JDict d) =
  Ok (JDict match supplied wl, supplied bl with
            | Some l, _ => mask_unlisted l d
            | None, Some l => mask_listed l d
            | None, None => d
            end).
Proof.
  unfold mask_log_fields. destruct (supplied wl) as [l|].
  - rewrite whitelist_loop. reflexivity.
  - destruct (supplied bl) as [l|]; [apply blacklist_loop | reflexivity].
Qed.

(** C4: applying a masking rule to a payload it is written for succeeds, and
    applying it again to the result returns the result unchanged.  The rules
    are the redaction primitive with any blacklist and whitelist, on any
    mapping, and the loop body of each of the four shredders, on any "order
    modified" payload (a mapping whose [data] is a list of mappings and whose
    [invoice_data] is a flag or a mapping). *)
Theorem masking_idempotent (R : rule) (p : json) :
  rule_domain R p = true ->
  exists p1, apply_rule R p = Ok p1 /\ apply_rule R p1 = Ok p1.
Proof.
  destruct R as [bl wl|sh]; cbn [rule_domain apply_rule]; intros Hdom.
  - destruct p; try discriminate. rewrite mask_log_fields_dict.
    eexists. split; [reflexivity|]. rewrite mask_log_fields_dict.
    destruct (supplied wl), (supplied bl);
      rewrite ?mask_unlisted_twice, ?mask_listed_twice; reflexivity.
  - destruct p as [| | | | | |d]; try discriminate.
    pose proof Hdom as Hshape. cbn [order_modified_shape] in Hshape.
    apply andb_true_iff in Hshape. destruct Hshape as [Hdata Hinv].
    rewrite (mask_order_modified_shape sh d Hdom).
    destruct (masked_payload sh d) as [d'|] eqn:Hmp; cbn [option_map bind].
    + exists (JDict d'). split; [reflexivity|].
      destruct (sh_is_invoice sh) as [->|Hsh].
      * cbn [masked_payload] in Hmp.
        destruct (dict_get "invoice_data" d) as [[]|] eqn:Hget; try discriminate.
        inversion Hmp; subst d'; clear Hmp.
        erewrite mask_invoice_closed.
        -- cbn [bind]. rewrite dict_update_twice, mask_truthy_twice. reflexivity.
        -- rewrite dict_get_update_same, dict_has_get, Hget. reflexivity.
        -- rewrite keys_mask_truthy. exact Hinv.
      * assert (Hrows : exists rows, dict_get "data" d = Some (JList rows) /\
                  d' = dict_update "data" (JList (map (mask_row_json sh) rows)) d).
        { destruct sh; try congruence; cbn [masked_payload] in Hmp;
            destruct (dict_get "data" d) as [[]|]; try discriminate;
            inversion Hmp; eauto. }
        destruct Hrows as [rows [Hget ->]]. rewrite Hget in Hdata.
        erewrite mask_rows_closed; [| exact Hsh | | ].
        -- cbn [bind]. rewrite dict_update_twice, map_map.
           erewrite map_ext; [reflexivity|]. intros row.
           apply mask_row_json_twice.
        -- rewrite dict_get_update_same, dict_has_get, Hget. reflexivity.
        -- apply mask_row_json_dicts, Hdata.
    + exists (JDict d). split; [reflexivity|].
      rewrite (mask_order_modified_shape sh d Hdom), Hmp. reflexivity.
Qed.

(** ** The scenarios of the specification, by evaluation *)

Example attendee_name_scenario :
  mask_order_modified AttendeeNameShredder jane_payload =
  Ok (Some (JDict [("data", JList [JDict [("attendee_name", masked);
                                          ("attendee_email", JStr "j@x.com")]])])).
Proof. reflexivity. Qed.

Example email_scenario :
  mask_order_modified EmailAddressShredder jane_payload =
  Ok (Some (JDict [("data", JList [JDict [("attendee_name", JStr "Jane Doe");
                                          ("attendee_email", masked)]])])).
Proof. reflexivity. Qed.

(** The four shredders, one after the other, on one entry. *)
Example all_four_scenario :
  (p1 <- apply_rule (OrderModified QuestionAnswerShredder) acme_answers_payload ;;
   p2 <- apply_rule (OrderModified InvoiceAddressShredder) p1 ;;
   p3 <- apply_rule (OrderModified AttendeeNameShredder) p2 ;;
   apply_rule (OrderModified EmailAddressShredder) p3) =
  Ok (JDict [("data", JList [JDict [("attendee_name", masked);
                                    ("attendee_email", masked);
                                    ("question_3", masked)]]);
             ("invoice_data", JDict [("company", masked); ("vat_id", JStr "")])]).
Proof. reflexivity. Qed.

(** An entry without a [data] list is left alone by the three row shredders. *)
Example no_data_scenario :
  mask_order_modified QuestionAnswerShredder acme_payload = Ok None.
Proof. reflexivity. Qed.

(** A boolean [invoice_data] is left alone by the invoice address shredder. *)
Example invoice_flag_scenario :
  mask_order_modified InvoiceAddressShredder (JDict [("invoice_data", JBool true)]) = Ok None.
Proof. reflexivity. Qed.

Lemma masking_idempotent_witness :
  rule_domain (OrderModified QuestionAnswerShredder) acme_answers_payload = true /\
  exists p1,
    apply_rule (OrderModified QuestionAnswerShredder) acme_answers_payload = Ok p1 /\
    apply_rule (OrderModified QuestionAnswerShredder) p1 = Ok p1.
Proof.
  split; [reflexivity|].
  apply (masking_idempotent (OrderModified QuestionAnswerShredder) acme_answers_payload).
  reflexivity.
Defined.

(** ** Reading a field after masking *)

Lemma dict_get_mask_answers (f : string) (r : dict) :
  dict_get f (mask_answers r) =
  option_map (fun v => if protected f then v else masked) (dict_get f r).
Proof.
  induction r as [|[k v] r IH]; simpl; [reflexivity|].
  destruct (String.eqb_spec k f) as [->|Hne].
  - destruct (protected f); simpl; rewrite String.eqb_refl; reflexivity.
  - destruct (protected k); simpl;
      (destruct (String.eqb_spec k f); [contradiction | exact IH]).
Qed.

Lemma dict_get_mask_truthy (f : string) (r : dict) :
  dict_get f (mask_truthy r) =
  option_map (fun v => if truthy v then masked else v) (dict_get f r).
Proof.
  induction r as [|[k v] r IH]; simpl; [reflexivity|].
  destruct (String.eqb_spec k f) as [->|Hne].
  - simpl. destruct (truthy v); simpl; rewrite String.eqb_refl; reflexivity.
  - destruct (truthy v); simpl;
      (destruct (String.eqb_spec k f); [contradiction | exact IH]).
Qed.

Lemma dict_get_mask_listed (bl : list string) (f : string) (d : dict) :
  dict_get f (mask_listed bl d) =
  option_map (fun v => if in_names f bl then masked else v) (dict_get f d).
Proof.
  induction d as [|[k v] d IH]; simpl; [reflexivity|].
  destruct (String.eqb_spec k f) as [->|Hne].
  - destruct (in_names f bl); simpl; rewrite String.eqb_refl; reflexivity.
  - destruct (in_names k bl); simpl;
      (destruct (String.eqb_spec k f); [contradiction | exact IH]).
Qed.

Lemma dict_get_mask_unlisted (wl : list string) (f : string) (d : dict) :
  dict_get f (mask_unlisted wl d) =
  option_map (fun v => if in_names f wl then v else masked) (dict_get f d).
Proof.
  induction d as [|[k v] d IH]; simpl; [reflexivity|].
  destruct (String.eqb_spec k f) as [->|Hne].
  - destruct (in_names f wl); simpl; rewrite String.eqb_refl; reflexivity.
  - destruct (in_names k wl); simpl;
      (destruct (String.eqb_spec k f); [contradiction | exact IH]).
Qed.

Lemma keys_mask_listed (bl : list string) (d : dict) : keys (mask_listed bl d) = keys d.
Proof.
  unfold keys, mask_listed. rewrite map_map. apply map_ext.
  intros [k v]; simpl. destruct (in_names k bl); reflexivity.
Qed.

Lemma keys_mask_unlisted (wl : list string) (d : dict) : keys (mask_unlisted wl d) = keys d.
Proof.
  unfold keys, mask_unlisted. rewrite map_map. apply map_ext.
  intros [k v]; simpl. destruct (in_names k wl); reflexivity.
Qed.

(** A row field a shredder does not own reads the same after its masking. *)
Lemma dict_get_mask_row (sh : shredder) (f : string) (r : dict) :
  owns_row_field sh f = false ->
  dict_get f (mask_row sh r) = dict_get f r.
Proof.
  destruct sh; cbn [owns_row_field mask_row]; intros H.
  - apply dict_get_update_other. intros ->. discriminate.
  - apply dict_get_update_other. intros ->. discriminate.
  - reflexivity.
  - rewrite dict_get_mask_answers. apply negb_false_iff in H. rewrite H.
    destruct (dict_get f r); reflexivity.
Qed.

Lemma dict_get_is_some_keys (f : string) (r r' : dict) :
  keys r' = keys r -> is_some (dict_get f r') = is_some (dict_get f r).
Proof.
  intros H. rewrite <- !dict_has_get, !dict_has_in_names, H. reflexivity.
Qed.

(** Reading a row field of a payload whose rows were masked. *)
Lemma row_field_masked (sh : shredder) (d : dict) (rows : list json) (i : nat) (f : string) :
  dict_get "data" d = Some (JList rows) ->
  row_field (dict_update "data" (JList (map (mask_row_json sh) rows)) d) i f =
  match nth_error rows i with
  | Some (JDict r) => dict_get f (mask_row sh r)
  | _ => None
  end.
Proof.
  intros Hget. unfold row_field.
  rewrite dict_get_update_same, dict_has_get, Hget. cbn [is_some].
  rewrite nth_error_map. destruct (nth_error rows i) as [[]|]; reflexivity.
Qed.

(** ** Field isolation *)

(** C5: on an "order modified" payload the loop body of a shredder succeeds
    and leaves in place every field it does not own: the keys of the payload,
    every top-level field other than the section it masks in ([data], or
    [invoice_data] for the invoice address shredder), and every row field
    other than its own ([attendee_name] for the attendee name shredder,
    [attendee_email] for the e-mail shredder, the fields other than these two
    for the question answer shredder, none for the invoice address shredder);
    no row field appears or disappears. *)
Theorem field_isolation (sh : shredder) (p : json) :
  order_modified_shape p = true ->
  exists d d',
    p = JDict d /\
    apply_rule (OrderModified sh) p = Ok (JDict d') /\
    keys d' = keys d /\
    (forall k, k <> section_key sh -> dict_get k d' = dict_get k d) /\
    (forall i f, owns_row_field sh f = false -> row_field d' i f = row_field d i f) /\
    (forall i f, is_some (row_field d' i f) = is_some (row_field d i f)).
Proof.
  intros Hshape. destruct p as [| | | | | |d]; try discriminate.
  exists d. cbn [apply_rule]. rewrite (mask_order_modified_shape sh d Hshape).
  destruct (masked_payload sh d) as [d'|] eqn:Hmp; cbn [option_map bind].
  2:{ exists d. repeat split; reflexivity. }
  exists d'. split; [reflexivity|]. split; [reflexivity|].
  destruct (sh_is_invoice sh) as [->|Hsh].
  - cbn [masked_payload] in Hmp.
    destruct (dict_get "invoice_data" d) as [[]|] eqn:Hget; try discriminate.
    inversion Hmp; subst d'; clear Hmp.
    assert (Hrf : forall i f,
      row_field (dict_update "invoice_data" (JDict (mask_truthy d0)) d) i f = row_field d i f).
    { intros i f. unfold row_field. rewrite dict_get_update_other by discriminate.
      reflexivity. }
    split; [apply keys_dict_update|].
    split; [intros k Hk; apply dict_get_update_other, Hk|].
    split; intros i f; [intros _|]; rewrite Hrf; reflexivity.
  - assert (Hrows : exists rows, dict_get "data" d = Some (JList rows) /\
              d' = dict_update "data" (JList (map (mask_row_json sh) rows)) d).
    { destruct sh; try congruence; cbn [masked_payload] in Hmp;
        destruct (dict_get "data" d) as [[]|]; try discriminate;
        inversion Hmp; eauto. }
    destruct Hrows as [rows [Hget ->]].
    assert (Hkey : section_key sh = "data") by (destruct sh; try reflexivity; congruence).
    split; [apply keys_dict_update|].
    split; [intros k Hk; rewrite Hkey in Hk; apply dict_get_update_other, Hk|].
    split; intros i f; [intros Hown|]; rewrite (row_field_masked sh d rows i f Hget);
      unfold row_field; rewrite Hget; destruct (nth_error rows i) as [[]|]; try reflexivity.
    + apply dict_get_mask_row, Hown.
    + apply dict_get_is_some_keys, keys_mask_row.
Qed.

Lemma field_isolation_witness :
  order_modified_shape acme_answers_payload = true /\
  exists d d',
    acme_answers_payload = JDict d /\
    apply_rule (OrderModified AttendeeNameShredder) acme_answers_payload = Ok (JDict d') /\
    keys d' = keys d /\
    (forall k, k <> "data" -> dict_get k d' = dict_get k d) /\
    (forall i f, owns_row_field AttendeeNameShredder f = false ->
                 row_field d' i f = row_field d i f) /\
    (forall i f, is_some (row_field d' i f) = is_some (row_field d i f)).
Proof.
  split; [reflexivity|].
  apply (field_isolation AttendeeNameShredder acme_answers_payload). reflexivity.
Defined.

(** ** What each shredder masks *)

(** C6: when the payload's [data] is a list of rows, the question answer
    shredder rewrites the entry, and afterwards every row field reads as the
    marker, except [attendee_name] and [attendee_email], which read as
    before; the row of the scenario, which has only these two fields, is
    written back unchanged. *)
Theorem question_answers_mask_rows :
  (forall (d : dict) (rows : list json),
     dict_get "data" d = Some (JList rows) ->
     forallb is_dict rows = true ->
     exists d',
       mask_order_modified QuestionAnswerShredder (JDict d) = Ok (Some (JDict d')) /\
       dict_get "data" d' = Some (JList (map (mask_row_json QuestionAnswerShredder) rows)) /\
       forall i f,
         row_field d' i f =
         option_map (fun v => if protected f then v else masked) (row_field d i f)) /\
  mask_order_modified QuestionAnswerShredder jane_payload = Ok (Some jane_payload).
Proof.
  split; [|reflexivity].
  intros d rows Hget Hrows. eexists. split.
  - apply mask_rows_closed; [discriminate | exact Hget | exact Hrows].
  - split.
    + rewrite dict_get_update_same, dict_has_get, Hget. reflexivity.
    + intros i f. rewrite (row_field_masked _ d rows i f Hget).
      unfold row_field. rewrite Hget.
      destruct (nth_error rows i) as [[]|]; try reflexivity.
      apply dict_get_mask_answers.
Qed.

Lemma question_answers_mask_rows_witness :
  exists d',
    mask_order_modified QuestionAnswerShredder acme_answers_payload = Ok (Some (JDict d')) /\
    row_field d' 0 "question_3" = Some masked /\
    row_field d' 0 "attendee_name" = Some (JStr "Jane Doe").
Proof.
  destruct (proj1 question_answers_mask_rows
              [("data", JList [JDict [("attendee_name", JStr "Jane Doe");
                                      ("attendee_email", JStr "j@x.com");
                                      ("question_3", JStr "vegan")]]);
               ("invoice_data", JDict [("company", JStr "Acme"); ("vat_id", JStr "")])]
              [JDict [("attendee_name", JStr "Jane Doe");
                      ("attendee_email", JStr "j@x.com");
                      ("question_3", JStr "vegan")]]
              eq_refl eq_refl) as [d' [Hrun [_ Hfields]]].
  exists d'. split; [exact Hrun|].
  split; rewrite Hfields; reflexivity.
Defined.

(** C7: when [invoice_data] is a mapping, the invoice address shredder
    rewrites the entry, and afterwards [invoice_data] has the same keys, every
    field whose value was truthy reads as the marker and every other field
    reads as before; the payload of the scenario becomes
    [{"company": marker, "vat_id": ""}]. *)
Theorem invoice_data_masks_truthy :
  (forall (d inv : dict),
     dict_get "invoice_data" d = Some (JDict inv) ->
     distinct (keys inv) = true ->
     exists d' inv',
       mask_order_modified InvoiceAddressShredder (JDict d) = Ok (Some (JDict d')) /\
       dict_get "invoice_data" d' = Some (JDict inv') /\
       keys inv' = keys inv /\
       forall f,
         dict_get f inv' =
         option_map (fun v => if truthy v then masked else v) (dict_get f inv)) /\
  mask_order_modified InvoiceAddressShredder acme_payload =
    Ok (Some (JDict [("invoice_data", JDict [("company", masked); ("vat_id", JStr "")])])).
Proof.
  split; [|reflexivity].
  intros d inv Hget Hnd. exists (dict_update "invoice_data" (JDict (mask_truthy inv)) d).
  exists (mask_truthy inv). split; [apply mask_invoice_closed; assumption|].
  split; [rewrite dict_get_update_same, dict_has_get, Hget; reflexivity|].
  split; [apply keys_mask_truthy | intros f; apply dict_get_mask_truthy].
Qed.

Lemma invoice_data_masks_truthy_witness :
  exists d' inv',
    mask_order_modified InvoiceAddressShredder acme_payload = Ok (Some (JDict d')) /\
    dict_get "invoice_data" d' = Some (JDict inv') /\
    dict_get "company" inv' = Some masked /\
    dict_get "vat_id" inv' = Some (JStr "").
Proof.
  destruct (proj1 invoice_data_masks_truthy
              [("invoice_data", JDict [("company", JStr "Acme"); ("vat_id", JStr "")])]
              [("company", JStr "Acme"); ("vat_id", JStr "")]
              eq_refl eq_refl) as [d' [inv' [Hrun [Hget [_ Hfields]]]]].
  exists d', inv'. split; [exact Hrun|]. split; [exact Hget|].
  split; rewrite Hfields; reflexivity.
Defined.

(** ** The redaction primitive *)

Lemma mask_listed_nil (d : dict) : mask_listed [] d = d.
Proof. unfold mask_listed. simpl. apply map_id. Qed.

Lemma mask_listed_absent (bl : list string) (d : dict) :
  (forall f, In f bl -> dict_has f d = false) ->
  mask_listed bl d = d.
Proof.
  intros Habs. unfold mask_listed. rewrite <- (map_id d) at 2.
  apply map_ext_in. intros [k v] Hin. simpl.
  destruct (in_names k bl) eqn:E; [|reflexivity].
  apply in_names_In in E. apply Habs in E. rewrite dict_has_in_names in E.
  assert (H : in_names k (keys d) = true).
  { apply in_names_In. change k with (fst (k, v)). apply in_map, Hin. }
  congruence.
Qed.

Lemma shred_log_fields_run (logentry : LogEntry) (bl wl : option (list string))
    (p p' : json) (db : Db) :
  data logentry = TextJson p ->
  mask_log_fields bl wl p = Ok p' ->
  shred_log_fields logentry bl wl db =
  Ok (tt, save_logentry (rewritten logentry p') db).
Proof.
  intros Hdata Hmask.
  unfold shred_log_fields, bindM, lift, shred_log_fields_entry, parsed_data, execute.
  rewrite Hdata. cbn [bind]. rewrite Hmask. reflexivity.
Qed.

(** What [save] writes: the row with the entry's key gets the new text and
    the flag at once; the other rows stay. *)
Lemma save_logentry_rows (le : LogEntry) (db : Db) (r : LogEntry) :
  In r (logentries (save_logentry le db)) ->
  (le_pk r = le_pk le /\ data r = data le /\ shredded r = shredded le) \/
  (le_pk r <> le_pk le /\ In r (logentries db)).
Proof.
  unfold save_logentry; cbn [logentries]. intros Hin.
  apply in_map_iff in Hin. destruct Hin as [r0 [Hr Hin]].
  destruct (Nat.eqb_spec (le_pk r0) (le_pk le)) as [E|E]; subst r.
  - left. cbn. auto.
  - right. auto.
Qed.

(** C8 as stated fails for an empty whitelist: nothing is masked, although
    no field is in the allow-list. *)
Lemma C8_counterexample :
  mask_log_fields None (Some []) (JDict [("message", JStr "hi")]) =
    Ok (JDict [("message", JStr "hi")]) /\
  in_names "message" [] = false /\
  JStr "hi" <> masked.
Proof. repeat split; discriminate. Qed.

(** C8, amended: on an entry whose payload is a mapping, [shred_log_fields]
    with a blacklist alone gives every listed field that is present the
    marker, leaves the other fields as they are and adds no key; with a
    non-empty whitelist alone it gives the marker to every field that is not
    listed; it then saves the entry, and the saved row carries the re-encoded
    payload and [shredded = True] together. *)
Theorem shred_log_fields_masks (logentry : LogEntry) (d : dict) (db : Db) :
  data logentry = TextJson (JDict d) ->
  (forall bl,
     shred_log_fields logentry (Some bl) None db =
       Ok (tt, save_logentry (rewritten logentry (JDict (mask_listed bl d))) db) /\
     keys (mask_listed bl d) = keys d /\
     forall f, dict_get f (mask_listed bl d) =
               option_map (fun v => if in_names f bl then masked else v) (dict_get f d)) /\
  (forall wl, wl <> [] ->
     shred_log_fields logentry None (Some wl) db =
       Ok (tt, save_logentry (rewritten logentry (JDict (mask_unlisted wl d))) db) /\
     keys (mask_unlisted wl d) = keys d /\
     forall f, dict_get f (mask_unlisted wl d) =
               option_map (fun v => if in_names f wl then v else masked) (dict_get f d)) /\
  (forall p r,
     In r (logentries (save_logentry (rewritten logentry p) db)) ->
     le_pk r = le_pk logentry ->
     data r = TextJson p /\ shredded r = true).
Proof.
  intros Hdata. split; [|split].
  - intros bl. split; [|split; [apply keys_mask_listed | intros f; apply dict_get_mask_listed]].
    apply (shred_log_fields_run _ _ _ _ _ _ Hdata).
    rewrite mask_log_fields_dict. destruct bl; [rewrite mask_listed_nil|]; reflexivity.
  - intros wl Hwl.
    split; [|split; [apply keys_mask_unlisted | intros f; apply dict_get_mask_unlisted]].
    apply (shred_log_fields_run _ _ _ _ _ _ Hdata).
    rewrite mask_log_fields_dict. destruct wl; [congruence | reflexivity].
  - intros p r Hin Hpk. apply save_logentry_rows in Hin.
    destruct Hin as [[_ [Hd Hs]]|[Hne _]]; [|contradiction].
    rewrite Hd, Hs. split; reflexivity.
Qed.

Lemma shred_log_fields_masks_witness :
  data mail_entry = TextJson (JDict [("recipient", JStr "j@x.com");
                                      ("subject", JStr "Your order");
                                      ("message", JStr "Hello Jane")]) /\
  shred_log_fields mail_entry (Some ["recipient"; "message"]) None shop =
    Ok (tt, save_logentry
              (rewritten mail_entry
                 (JDict (mask_listed ["recipient"; "message"]
                           [("recipient", JStr "j@x.com"); ("subject", JStr "Your order");
                            ("message", JStr "Hello Jane")]))) shop).
Proof.
  split; [reflexivity|].
  apply (proj1 (shred_log_fields_masks mail_entry _ shop eq_refl)).
Defined.

(** C10: when no whitelist is in effect (none, or an empty one) and the
    blacklist masks nothing (none, an empty one, or one that names no key of
    the payload), [shred_log_fields] still saves the entry: the saved row has
    [shredded = True] and a payload equal to the one it had. *)
Theorem shredded_without_masking (logentry : LogEntry) (p : json)
    (bl wl : option (list string)) (db : Db) :
  data logentry = TextJson p ->
  supplied wl = None ->
  supplied bl = None \/
  (exists d l, p = JDict d /\ bl = Some l /\ forall f, In f l -> dict_has f d = false) ->
  shred_log_fields logentry bl wl db =
    Ok (tt, save_logentry (rewritten logentry p) db) /\
  data (rewritten logentry p) = data logentry /\
  shredded (rewritten logentry p) = true /\
  (In logentry (logentries db) ->
   In (rewritten logentry p) (logentries (save_logentry (rewritten logentry p) db))).
Proof.
  intros Hdata Hwl Hbl. split; [|split; [|split]].
  - apply (shred_log_fields_run _ _ _ _ _ _ Hdata).
    destruct Hbl as [Hbl|[d [l [-> [-> Habs]]]]].
    + unfold mask_log_fields. rewrite Hwl, Hbl. reflexivity.
    + rewrite mask_log_fields_dict, Hwl.
      destruct (supplied (Some l)) as [l'|] eqn:E; [|reflexivity].
      assert (l' = l) by (destruct l; simpl in E; congruence). subst l'.
      rewrite (mask_listed_absent l d Habs). reflexivity.
  - simpl. symmetry. exact Hdata.
  - reflexivity.
  - intros Hin. unfold save_logentry; cbn [logentries].
    apply in_map_iff. exists logentry. split; [|exact Hin].
    cbn [le_pk rewritten]. rewrite Nat.eqb_refl. reflexivity.
Qed.

Lemma shredded_without_masking_witness :
  shred_log_fields mail_entry (Some ["old_email"; "new_email"]) (Some []) shop =
    Ok (tt, save_logentry (rewritten mail_entry
              (JDict [("recipient", JStr "j@x.com"); ("subject", JStr "Your order");
                      ("message", JStr "Hello Jane")])) shop) /\
  shredded (rewritten mail_entry
              (JDict [("recipient", JStr "j@x.com"); ("subject", JStr "Your order");
                      ("message", JStr "Hello Jane")])) = true.
Proof.
  destruct (shredded_without_masking mail_entry
              (JDict [("recipient", JStr "j@x.com"); ("subject", JStr "Your order");
                      ("message", JStr "Hello Jane")])
              (Some ["old_email"; "new_email"]) (Some []) shop eq_refl eq_refl)
    as [Hrun [_ [Hflag _]]].
  - right. eexists. eexists. split; [reflexivity|]. split; [reflexivity|].
    intros f [<-|[<-|[]]]; reflexivity.
  - split; [exact Hrun | exact Hflag].
Defined.

(** ** The export *)

Section ExportProperties.

Variable InvoiceAdddressSerializer : InvoiceAddress -> json.
Variable AnswerSerializer : list QuestionAnswer -> json.

(** A query returns the database it was given. *)
Lemma query_reads {A B : Type} (q : Db -> A) (k : A -> M B) (db : Db) :
  (x <~ query q ;; k x) db = k (q db) db.
Proof. reflexivity. Qed.

(** C9: for every shredder, event and database, [generate_files] returns
    without raising, hands back the database it was given (every record,
    every log entry payload and every [shredded] flag is as before), and
    yields a finite list of files (two for the e-mail shredder, one for each
    of the others, under the names the source gives them), all of MIME type
    [application/json]. *)
Theorem generate_files_read_only (sh : shredder) (event : nat) (db : Db) :
  exists files,
    generate_files InvoiceAdddressSerializer AnswerSerializer sh event db = Ok (files, db) /\
    map (fun f => fst (fst f)) files =
      match sh with
      | EmailAddressShredder => ["emails-by-order.json"; "emails-by-attendee.json"]
      | AttendeeNameShredder => ["attendee-names.json"]
      | InvoiceAddressShredder => ["invoice-addresses.json"]
      | QuestionAnswerShredder => ["question-answers.json"]
      end /\
    Forall (fun f => snd (fst f) = "application/json") files.
Proof.
  destruct sh; cbn [generate_files]; rewrite ?query_reads;
    (eexists; split; [reflexivity|]; split; [reflexivity|]);
    repeat constructor.
Qed.

End ExportProperties.

(** ** The loops over log entries *)

Lemma Forall2_refl_on {A : Type} (P : A -> A -> Prop) (l : list A) :
  (forall a, P a a) -> Forall2 P l l.
Proof. intros H. induction l; constructor; auto. Qed.

Lemma Forall2_In_impl {A B : Type} (P Q : A -> B -> Prop) (l : list A) (l' : list B) :
  Forall2 P l l' ->
  (forall a b, In a l -> P a b -> Q a b) ->
  Forall2 Q l l'.
Proof.
  induction 1 as [|a b l l' Hab Hl IH]; intros Himp; constructor.
  - apply Himp; [left; reflexivity | exact Hab].
  - apply IH. intros x y Hx. apply Himp. right. exact Hx.
Qed.

Lemma Forall2_compose {A : Type} (P Q R : A -> A -> Prop) (l0 l1 l2 : list A) :
  Forall2 P l0 l1 -> Forall2 Q l1 l2 ->
  (forall a b c, P a b -> Q b c -> R a c) ->
  Forall2 R l0 l2.
Proof.
  intros H01. revert l2. induction H01 as [|a b l0 l1 Hab H01 IH]; intros l2 H12 Himp.
  - inversion H12. constructor.
  - inversion H12 as [|? c ? l2' Hbc H12']; subst. constructor; eauto.
Qed.

Lemma Forall2_map_l {A B C : Type} (f : A -> B) (P : B -> C -> Prop)
    (l : list A) (l' : list C) :
  Forall2 P (map f l) l' -> Forall2 (fun a c => P (f a) c) l l'.
Proof.
  revert l'. induction l as [|a l IH]; intros l' H; inversion H; subst; constructor; auto.
Qed.

Lemma evolves_refl (r : LogEntry) : evolves r r.
Proof. unfold evolves. auto. Qed.

Lemma evolves_trans (r0 r1 r2 : LogEntry) :
  evolves r0 r1 -> evolves r1 r2 -> evolves r0 r2.
Proof.
  unfold evolves. intros [Hp [He [Ha Hs]]] [Hp' [He' [Ha' Hs']]].
  repeat split; try congruence.
  destruct Hs' as [Hs'|E]; [left; exact Hs' | subst r2; exact Hs].
Qed.

(** Once flagged, a row stays flagged. *)
Lemma evolves_flagged (r r' : LogEntry) :
  evolves r r' -> shredded r = true -> shredded r' = true.
Proof. intros [_ [_ [_ [H|E]]]] Hr; [exact H | subst r'; exact Hr]. Qed.

Lemma same_records_refl (db : Db) : same_records db db.
Proof. unfold same_records. auto. Qed.

Lemma same_records_trans (db0 db1 db2 : Db) :
  same_records db0 db1 -> same_records db1 db2 -> same_records db0 db2.
Proof. unfold same_records. intuition congruence. Qed.

(** The row a [save] of a rewritten entry produces. *)
Lemma save_rewritten_row (le r : LogEntry) (d' : json) :
  let r' := if (le_pk r =? le_pk le)%nat
            then mkLogEntry (le_pk r) (le_event r) (action_type r) (TextJson d') true
            else r in
  evolves r r' /\ (le_pk le = le_pk r -> shredded r' = true).
Proof.
  cbv zeta. destruct (Nat.eqb_spec (le_pk r) (le_pk le)) as [E|E].
  - unfold evolves; cbn. repeat split; auto.
  - split; [apply evolves_refl | congruence].
Qed.

(** A loop that completes has run every body without raising, leaves the
    record tables alone, and flags the row of every entry it saves. *)
Lemma for_each_logentries (payload : LogEntry -> exc (option json))
    (body : LogEntry -> M unit) (qs : list LogEntry) :
  (forall le db, body le db = loop_body payload le db) ->
  forall db db',
    for_each qs body db = Ok (tt, db') ->
    same_records db db' /\
    (forall le, In le qs -> exists res, payload le = Ok res) /\
    Forall2 (fun r r' =>
               evolves r r' /\
               forall le d', In le qs -> le_pk le = le_pk r ->
                             payload le = Ok (Some d') -> shredded r' = true)
            (logentries db) (logentries db').
Proof.
  intros Hbody. induction qs as [|le qs IH]; intros db db' Hrun.
  - cbn in Hrun. inversion Hrun; subst db'. split; [apply same_records_refl|].
    split; [intros le []|]. apply Forall2_refl_on.
    intros r. split; [apply evolves_refl | intros le d' []].
  - cbn [for_each] in Hrun. unfold bindM in Hrun at 1. rewrite Hbody in Hrun.
    unfold loop_body, bindM, lift in Hrun.
    destruct (payload le) as [[d'|]|e] eqn:Hle; [| |discriminate].
    + cbn [execute] in Hrun. apply IH in Hrun. destruct Hrun as [Hrec [Hok Hrows]].
      split; [exact Hrec|]. split.
      { intros le0 [<-|Hin]; [eauto | apply Hok, Hin]. }
      cbn [save_logentry logentries] in Hrows. apply Forall2_map_l in Hrows.
      eapply Forall2_In_impl; [exact Hrows|]. cbv beta.
      intros r r' _ [Hev Hflag].
      destruct (save_rewritten_row le r d') as [Hev0 Hflag0]. cbv zeta in Hev0, Hflag0.
      cbn [rewritten data shredded le_pk] in Hev, Hflag.
      split; [eapply evolves_trans; eassumption|].
      intros le0 d0 [<-|Hin] Hpk Hp.
      * eapply evolves_flagged; [exact Hev | apply Hflag0, Hpk].
      * apply (Hflag le0 d0 Hin); [|exact Hp].
        rewrite Hpk. destruct (le_pk r =? le_pk le)%nat; reflexivity.
    + cbn [ret] in Hrun. apply IH in Hrun. destruct Hrun as [Hrec [Hok Hrows]].
      split; [exact Hrec|]. split.
      { intros le0 [<-|Hin]; [eauto | apply Hok, Hin]. }
      eapply Forall2_In_impl; [exact Hrows|]. cbv beta.
      intros r r' _ [Hev Hflag]. split; [exact Hev|].
      intros le0 d0 [<-|Hin] Hpk Hp; [congruence | eauto].
Qed.

(** A scan: the query, then the loop over its result. *)
Lemma scan_loop (payload : LogEntry -> exc (option json)) (body : LogEntry -> M unit)
    (event : nat) (sel : LogEntry -> bool) (db db' : Db) :
  (forall le db, body le db = loop_body payload le db) ->
  (qs <~ query (logentry_set event sel) ;; for_each qs body) db = Ok (tt, db') ->
  same_records db db' /\
  Forall2 (fun r r' =>
             evolves r r' /\
             ((le_event r =? event)%nat && sel r = true ->
              exists res, payload r = Ok res /\ (res <> None -> shredded r' = true)))
          (logentries db) (logentries db').
Proof.
  intros Hbody Hrun. change (for_each (logentry_set event sel db) body db = Ok (tt, db')) in Hrun.
  destruct (for_each_logentries payload body _ Hbody db db' Hrun) as [Hrec [Hok Hrows]].
  split; [exact Hrec|].
  eapply Forall2_In_impl; [exact Hrows|]. cbv beta.
  intros r r' Hin [Hev Hflag]. split; [exact Hev|]. intros Hsel.
  assert (Hq : In r (logentry_set event sel db)) by (apply filter_In; auto).
  destruct (Hok r Hq) as [res Hres]. exists res. split; [exact Hres|].
  destruct res as [d'|]; [intros _ | congruence].
  apply (Hflag r d' Hq eq_refl Hres).
Qed.

Lemma shred_log_fields_body (bl wl : option (list string)) (le : LogEntry) (db : Db) :
  shred_log_fields le bl wl db = loop_body (primitive_payload bl wl) le db.
Proof.
  unfold shred_log_fields, loop_body, primitive_payload, shred_log_fields_entry, bindM, lift.
  destruct (parsed_data le) as [d|e]; [|reflexivity]. cbn [bind].
  destruct (mask_log_fields bl wl d); reflexivity.
Qed.

Lemma order_modified_body (sh : shredder) (le : LogEntry) (db : Db) :
  (d <~ lift (parsed_data le) ;;
   r <~ lift (mask_order_modified sh d) ;;
   match r with
   | Some d' => execute (save_logentry (rewritten le d'))
   | None => ret tt
   end) db = loop_body (modified_payload sh) le db.
Proof.
  unfold loop_body, modified_payload, bindM, lift.
  destruct (parsed_data le) as [d|e]; reflexivity.
Qed.

(** The primitive writes whenever it returns. *)
Lemma primitive_payload_some (bl wl : option (list string)) (le : LogEntry)
    (res : option json) :
  primitive_payload bl wl le = Ok res -> res <> None.
Proof.
  unfold primitive_payload. destruct (parsed_data le); [|discriminate]. cbn [bind].
  destruct (mask_log_fields bl wl a); [|discriminate]. cbn [bind].
  intros H. inversion H. discriminate.
Qed.

(** A loop body that finds its section writes whenever it returns. *)
Lemma has_section_rewrites (sh : shredder) (p : json) (res : option json) :
  has_section sh p = true ->
  mask_order_modified sh p = Ok res -> res <> None.
Proof.
  destruct p as [| | | | | |d]; try discriminate. cbn [has_section].
  destruct (sh_is_invoice sh) as [->|Hsh].
  - destruct (dict_get "invoice_data" d) as [v|] eqn:Hget; [|discriminate].
    intros Hv. unfold mask_order_modified; cbn [py_contains py_getitem bind].
    rewrite dict_has_get, Hget. cbn [is_some bind].
    apply negb_true_iff in Hv. rewrite Hv.
    destruct (invoice_fields v); [|discriminate]. cbn [bind py_setitem].
    intros H. inversion H. discriminate.
  - intros Hhas.
    assert (Hhas' : dict_has "data" d = true) by (destruct sh; try assumption; congruence).
    pose proof Hhas' as Hget. rewrite dict_has_get in Hget.
    destruct (dict_get "data" d) as [c|] eqn:Hc; [|discriminate].
    destruct sh; try congruence;
      unfold mask_order_modified; cbn [py_contains py_getitem bind];
      rewrite Hhas', Hc; cbn [bind];
      (destruct (for_rows _ c); [|discriminate]); cbn [bind py_setitem];
      intros H; inversion H; discriminate.
Qed.

(** The scans of the e-mail shredder flag every entry they visit. *)
Lemma primitive_scan (bl wl : option (list string)) (event : nat)
    (sel : LogEntry -> bool) (db db' : Db) :
  (qs <~ query (logentry_set event sel) ;;
   for_each qs (fun le => shred_log_fields le bl wl)) db = Ok (tt, db') ->
  same_records db db' /\
  Forall2 (fun r r' =>
             evolves r r' /\
             ((le_event r =? event)%nat && sel r = true -> shredded r' = true))
          (logentries db) (logentries db').
Proof.
  intros Hrun.
  destruct (scan_loop (primitive_payload bl wl) _ event sel db db'
              (shred_log_fields_body bl wl) Hrun) as [Hrec Hrows].
  split; [exact Hrec|]. eapply Forall2_In_impl; [exact Hrows|]. cbv beta.
  intros r r' _ [Hev Hflag]. split; [exact Hev|]. intros Hsel.
  destruct (Hflag Hsel) as [res [Hres Hs]]. apply Hs.
  eapply primitive_payload_some, Hres.
Qed.

(** The "order modified" scan flags every entry whose payload has the
    shredder's section. *)
Lemma modified_scan (sh : shredder) (event : nat) (db db' : Db) :
  shred_order_modified sh event db = Ok (tt, db') ->
  same_records db db' /\
  Forall2 (fun r r' =>
             evolves r r' /\
             ((le_event r =? event)%nat && is_order_modified r = true ->
              forall p, data r = TextJson p -> has_section sh p = true ->
                        shredded r' = true))
          (logentries db) (logentries db').
Proof.
  intros Hrun.
  destruct (scan_loop (modified_payload sh) _ event is_order_modified db db'
              (order_modified_body sh) Hrun) as [Hrec Hrows].
  split; [exact Hrec|]. eapply Forall2_In_impl; [exact Hrows|]. cbv beta.
  intros r r' _ [Hev Hflag]. split; [exact Hev|]. intros Hsel p Hdata Hsec.
  destruct (Hflag Hsel) as [res [Hres Hs]]. apply Hs.
  unfold modified_payload, parsed_data in Hres. rewrite Hdata in Hres. cbn [bind] in Hres.
  eapply has_section_rewrites; eassumption.
Qed.

(** ** The record tables *)

Lemma bindM_inv {A B : Type} (m : M A) (k : A -> M B) (db db' : Db) (b : B) :
  bindM m k db = Ok (b, db') ->
  exists a db1, m db = Ok (a, db1) /\ k a db1 = Ok (b, db').
Proof.
  unfold bindM. destruct (m db) as [[a db1]|e]; [eauto | discriminate].
Qed.

Lemma order_in_event_orders (db db' : Db) (event pk : nat) :
  orders db' = orders db ->
  order_in_event db' event pk = order_in_event db event pk.
Proof. intros H. unfold order_in_event, order_of. rewrite H. reflexivity. Qed.

Lemma position_in_event_tables (db db' : Db) (event pk : nat) :
  orders db' = orders db -> positions db' = positions db ->
  position_in_event db' event pk = position_in_event db event pk.
Proof.
  intros Ho Hp. unfold position_in_event. rewrite Hp.
  destruct (find _ (positions db)); [apply order_in_event_orders, Ho | reflexivity].
Qed.

(** Clearing the e-mail column of orders keeps every order in its event. *)
Lemma order_in_event_cleared (db : Db) (event ev pk : nat) :
  order_in_event (clear_order_emails ev db) event pk = order_in_event db event pk.
Proof.
  unfold order_in_event, order_of, clear_order_emails; cbn [orders].
  induction (orders db) as [|o os IH]; [reflexivity|]. cbn [map find].
  destruct ((o_event o =? ev)%nat && is_some (email o)); cbn [o_pk o_event];
    (destruct (o_pk o =? pk)%nat; [reflexivity | exact IH]).
Qed.

Lemma cleared_attendee_emails (db : Db) (event : nat) (op : OrderPosition) :
  In op (positions (clear_attendee_emails event db)) ->
  order_in_event db event (op_order op) = true ->
  attendee_email op = None.
Proof.
  unfold clear_attendee_emails, set_positions; cbn [positions]. intros Hin Hev.
  apply in_map_iff in Hin. destruct Hin as [op0 [Hop Hin]].
  destruct (order_in_event db event (op_order op0)) eqn:E0;
    destruct (attendee_email op0) eqn:E1; cbn [andb is_some] in Hop; subst op;
    cbn [attendee_email op_order] in *; congruence.
Qed.

Lemma cleared_attendee_names (db : Db) (event : nat) (op : OrderPosition) :
  In op (positions (clear_attendee_names event db)) ->
  order_in_event db event (op_order op) = true ->
  attendee_name op = None.
Proof.
  unfold clear_attendee_names, set_positions; cbn [positions]. intros Hin Hev.
  apply in_map_iff in Hin. destruct Hin as [op0 [Hop Hin]].
  destruct (order_in_event db event (op_order op0)) eqn:E0;
    destruct (attendee_name op0) eqn:E1; cbn [andb is_some] in Hop; subst op;
    cbn [attendee_name op_order] in *; congruence.
Qed.

Lemma cleared_order_emails (db : Db) (event : nat) (o : Order) :
  In o (orders (clear_order_emails event db)) ->
  o_event o = event -> email o = None.
Proof.
  unfold clear_order_emails; cbn [orders]. intros Hin Hev.
  apply in_map_iff in Hin. destruct Hin as [o0 [Ho Hin]].
  destruct (Nat.eqb_spec (o_event o0) event) as [E0|E0];
    destruct (email o0) eqn:E1; cbn [andb is_some] in Ho; subst o;
    cbn [email o_event] in *; congruence.
Qed.

(** ** Destructiveness *)

Lemma records_after_shred (sh : shredder) (event : nat) (db db1 db' : Db) :
  db1 = match sh with
        | EmailAddressShredder => clear_order_emails event (clear_attendee_emails event db)
        | AttendeeNameShredder => clear_attendee_names event db
        | InvoiceAddressShredder => delete_invoice_addresses event db
        | QuestionAnswerShredder => delete_question_answers event db
        end ->
  same_records db1 db' ->
  records_shredded sh event db'.
Proof.
  intros -> [Ho [Hp [Hi Hq]]]. destruct sh; cbn [records_shredded].
  - split.
    + intros o Hin. rewrite Ho in Hin.
      apply (cleared_order_emails (clear_attendee_emails event db) event o Hin).
    + intros op Hin Hev. rewrite Hp in Hin.
      rewrite (order_in_event_orders _ _ _ _ Ho), order_in_event_cleared in Hev.
      cbn [clear_order_emails positions] in Hin.
      apply (cleared_attendee_emails db event op Hin).
      rewrite <- Hev. symmetry. apply order_in_event_orders. reflexivity.
  - intros op Hin Hev. rewrite Hp in Hin.
    rewrite (order_in_event_orders _ _ _ _ Ho) in Hev.
    apply (cleared_attendee_names db event op Hin).
    rewrite <- Hev. symmetry. apply order_in_event_orders. reflexivity.
  - intros ia Hin. rewrite Hi in Hin. rewrite (order_in_event_orders _ _ _ _ Ho).
    cbn [delete_invoice_addresses invoice_addresses] in Hin.
    apply filter_In in Hin. destruct Hin as [_ Hneg]. apply negb_true_iff in Hneg.
    rewrite <- Hneg. apply order_in_event_orders. reflexivity.
  - intros a Hin. rewrite Hq in Hin. rewrite (position_in_event_tables _ _ _ _ Ho Hp).
    cbn [delete_question_answers question_answers] in Hin.
    apply filter_In in Hin. destruct Hin as [_ Hneg]. apply negb_true_iff in Hneg.
    rewrite <- Hneg. apply position_in_event_tables; reflexivity.
Qed.

(** The log entries after the e-mail shredder's three scans. *)
Lemma email_scans (event : nat) (db db' : Db) :
  ((qs <~ query (logentry_set event is_order_email) ;;
    for_each qs (fun le => shred_log_fields le (Some ["recipient"; "message"]) None)) >>
   (qs <~ query (logentry_set event is_contact_changed) ;;
    for_each qs (fun le => shred_log_fields le (Some ["old_email"; "new_email"]) None)) >>
   shred_order_modified EmailAddressShredder event) db = Ok (tt, db') ->
  same_records db db' /\
  Forall2 (fun r r' =>
             le_pk r' = le_pk r /\
             (rewritten_by EmailAddressShredder event r = true -> shredded r' = true))
          (logentries db) (logentries db').
Proof.
  intros Hrun.
  apply bindM_inv in Hrun. destruct Hrun as [[] [db1 [H1 Hrun]]].
  apply bindM_inv in Hrun. destruct Hrun as [[] [db2 [H2 H3]]].
  apply primitive_scan in H1. destruct H1 as [Hrec1 Hrows1].
  apply primitive_scan in H2. destruct H2 as [Hrec2 Hrows2].
  apply modified_scan in H3. destruct H3 as [Hrec3 Hrows3].
  split; [eauto using same_records_trans|].
  assert (Hrows12 : Forall2 (fun r r2 =>
            evolves r r2 /\
            ((le_event r =? event)%nat && (is_order_email r || is_contact_changed r) = true ->
             shredded r2 = true)) (logentries db) (logentries db2)).
  { eapply Forall2_compose; [exact Hrows1 | exact Hrows2 |]. cbv beta.
    intros r0 r1 r2 [Hev1 Hf1] [Hev2 Hf2]. split; [eapply evolves_trans; eassumption|].
    intros Hsel. apply andb_true_iff in Hsel. destruct Hsel as [He Hkind].
    apply orb_true_iff in Hkind. destruct Hkind as [Hk|Hk].
    - apply (evolves_flagged r1 r2 Hev2). apply Hf1. rewrite He, Hk. reflexivity.
    - destruct Hev1 as [_ [_ [_ [Hs|E]]]].
      + apply (evolves_flagged r1 r2); assumption.
      + subst r1. apply Hf2. rewrite He, Hk. reflexivity. }
  eapply Forall2_compose; [exact Hrows12 | exact Hrows3 |]. cbv beta.
  intros r0 r2 r3 [Hev12 Hf12] [Hev3 Hf3].
  split; [destruct Hev12 as [Hp _], Hev3 as [Hp' _]; congruence|].
  unfold rewritten_by. intros Hsel. apply andb_true_iff in Hsel.
  destruct Hsel as [He Hkind]. apply orb_true_iff in Hkind. destruct Hkind as [Hk|Hk].
  - apply andb_true_iff in Hk. destruct Hk as [Hmod Hsec].
    destruct Hev12 as [_ [_ [_ [Hs|E]]]].
    + apply (evolves_flagged r2 r3); assumption.
    + subst r2. destruct (data r0) as [| |p] eqn:Hdata; try discriminate.
      apply (Hf3 (proj2 (andb_true_iff _ _) (conj He Hmod)) p eq_refl Hsec).
  - apply (evolves_flagged r2 r3 Hev3). apply Hf12. rewrite He, Hk. reflexivity.
Qed.

(** C2 as stated fails: an "order modified" entry the attendee name shredder
    visits, whose payload has no [data] list, is not flagged. *)
Lemma C2_counterexample :
  exists db',
    shred_data AttendeeNameShredder 7 shop = Ok (tt, db') /\
    scanned AttendeeNameShredder 7 invoice_only_entry = true /\
    In invoice_only_entry (logentries shop) /\
    In invoice_only_entry (logentries db') /\
    shredded invoice_only_entry = false.
Proof.
  eexists. split; [vm_compute; reflexivity|].
  split; [reflexivity|]. split; [simpl; auto|]. split; [simpl; auto | reflexivity].
Qed.

(** C2, amended: when [shred_data] of a shredder completes, every record
    field it targets is null for the event ([order.email] and
    [position.attendee_email]; [position.attendee_name]) or its rows are
    gone (invoice addresses; question answers), and the row of every log
    entry it rewrites has [shredded = True]: the entries of the two e-mail
    scans, and the "order modified" entries whose payload has the shredder's
    section (a [data] key; for the invoice address shredder an
    [invoice_data] that is not a flag). *)
Theorem shred_data_destroys (sh : shredder) (event : nat) (db db' : Db) :
  shred_data sh event db = Ok (tt, db') ->
  records_shredded sh event db' /\
  Forall2 (fun le le' =>
             le_pk le' = le_pk le /\
             (rewritten_by sh event le = true -> shredded le' = true))
          (logentries db) (logentries db').
Proof.
  intros Hrun. unfold shred_data, atomic in Hrun.
  assert (Hmod : forall db1,
            sh <> EmailAddressShredder ->
            logentries db1 = logentries db ->
            shred_order_modified sh event db1 = Ok (tt, db') ->
            same_records db1 db' /\
            Forall2 (fun le le' =>
                       le_pk le' = le_pk le /\
                       (rewritten_by sh event le = true -> shredded le' = true))
                    (logentries db) (logentries db')).
  { intros db1 Hsh Hlog H. apply modified_scan in H. destruct H as [Hrec Hrows].
    split; [exact Hrec|]. rewrite Hlog in Hrows.
    eapply Forall2_In_impl; [exact Hrows|]. cbv beta.
    intros r r' _ [[Hpk _] Hf]. split; [exact Hpk|].
    unfold rewritten_by. intros Hsel. apply andb_true_iff in Hsel.
    destruct Hsel as [He Hkind].
    assert (Hk : is_order_modified r &&
                 match data r with TextJson p => has_section sh p | _ => false end = true).
    { destruct sh; try congruence; rewrite orb_false_r in Hkind; exact Hkind. }
    apply andb_true_iff in Hk. destruct Hk as [Hm Hsec].
    destruct (data r) as [| |p] eqn:Hdata; try discriminate.
    apply (Hf (proj2 (andb_true_iff _ _) (conj He Hm)) p eq_refl Hsec). }
  destruct sh.
  - apply bindM_inv in Hrun. destruct Hrun as [[] [db1 [H1 Hrun]]].
    apply bindM_inv in Hrun. destruct Hrun as [[] [db2 [H2 Hrun]]].
    inversion H1; subst db1. inversion H2; subst db2. clear H1 H2.
    apply email_scans in Hrun. destruct Hrun as [Hrec Hrows].
    split; [|exact Hrows]. eapply records_after_shred; [reflexivity | exact Hrec].
  - apply bindM_inv in Hrun. destruct Hrun as [[] [db1 [H1 Hrun]]].
    inversion H1; subst db1. clear H1.
    apply Hmod in Hrun; [|discriminate|reflexivity]. destruct Hrun as [Hrec Hrows].
    split; [|exact Hrows]. eapply records_after_shred; [reflexivity | exact Hrec].
  - apply bindM_inv in Hrun. destruct Hrun as [[] [db1 [H1 Hrun]]].
    inversion H1; subst db1. clear H1.
    apply Hmod in Hrun; [|discriminate|reflexivity]. destruct Hrun as [Hrec Hrows].
    split; [|exact Hrows]. eapply records_after_shred; [reflexivity | exact Hrec].
  - apply bindM_inv in Hrun. destruct Hrun as [[] [db1 [H1 Hrun]]].
    inversion H1; subst db1. clear H1.
    apply Hmod in Hrun; [|discriminate|reflexivity]. destruct Hrun as [Hrec Hrows].
    split; [|exact Hrows]. eapply records_after_shred; [reflexivity | exact Hrec].
Qed.

Lemma shred_data_destroys_witness :
  exists db',
    shred_data EmailAddressShredder 7 shop = Ok (tt, db') /\
    records_shredded EmailAddressShredder 7 db' /\
    Forall2 (fun le le' =>
               le_pk le' = le_pk le /\
               (rewritten_by EmailAddressShredder 7 le = true -> shredded le' = true))
            (logentries shop) (logentries db').
Proof.
  eexists. split; [vm_compute; reflexivity|].
  apply (shred_data_destroys EmailAddressShredder 7 shop). vm_compute. reflexivity.
Defined.

(** * Further properties of the code *)

(** ** The gate over time *)

(** Once the gate lets an event through, it keeps doing so at every later
    evaluation time, as long as the event is not changed. *)
Theorem shred_constraints_stays_eligible (now now' : datetime) (event : Event) :
  shred_constraints now event = Ok None ->
  (now <= now')%Z ->
  shred_constraints now' event = Ok None.
Proof.
  unfold shred_constraints. destruct (date_to_or_date_from event) as [t|]; [|discriminate].
  destruct (Z.gtb_spec t (now - sixty_days)); [discriminate|].
  destruct (live event); [discriminate|]. intros _ Hle.
  destruct (Z.gtb_spec t (now' - sixty_days)); [lia | reflexivity].
Qed.

Lemma shred_constraints_stays_eligible_witness :
  shred_constraints (3 * sixty_days)%Z (mkEvent (Some 0%Z) (Some 5%Z) false) = Ok None.
Proof.
  apply (shred_constraints_stays_eligible (2 * sixty_days)%Z (3 * sixty_days)%Z
           (mkEvent (Some 0%Z) (Some 5%Z) false)).
  - reflexivity.
  - unfold sixty_days. lia.
Defined.

(** ** The redaction primitive on a payload that is not a mapping *)

Lemma blacklist_step_non_mapping (p p' : json) (f : string) :
  is_dict p = false -> blacklist_step p f = Ok p' -> p' = p.
Proof.
  unfold blacklist_step. destruct p; try discriminate; intros _; cbn [py_contains bind];
    try discriminate;
    match goal with |- context [if ?c then _ else _] => destruct c end;
    cbn [py_setitem]; intros H; inversion H; reflexivity.
Qed.

Lemma blacklist_loop_non_mapping (bl : list string) (p p' : json) :
  is_dict p = false -> foldM blacklist_step bl p = Ok p' -> p' = p.
Proof.
  intros Hp. induction bl as [|f bl IH]; cbn [foldM]; intros H.
  - inversion H. reflexivity.
  - destruct (blacklist_step p f) as [q|] eqn:Hq; [|discriminate]. cbn [bind] in H.
    apply (blacklist_step_non_mapping p q f Hp) in Hq. subst q. apply IH, H.
Qed.

Lemma mask_log_fields_unchanged (bl wl : option (list string)) (p p' : json) :
  is_dict p = false ->
  mask_log_fields bl wl p = Ok p' ->
  supplied wl = None /\ p' = p.
Proof.
  intros Hp. unfold mask_log_fields. destruct (supplied wl) as [l|].
  - destruct p; discriminate.
  - destruct (supplied bl) as [l|]; intros H; split; try reflexivity.
    + eapply blacklist_loop_non_mapping; eassumption.
    + inversion H. reflexivity.
Qed.

(** When the parsed payload is a list, a string, a number, a flag or null,
    [shred_log_fields] can only return if no whitelist is in effect, and then
    it writes the payload back as it was: masking never changes a payload
    that is not a mapping. *)
Theorem mask_log_fields_non_mapping (bl wl : option (list string)) (p p' : json) :
  is_dict p = false ->
  mask_log_fields bl wl p = Ok p' ->
  supplied wl = None /\ p' = p.
Proof. apply mask_log_fields_unchanged. Qed.

Lemma mask_log_fields_non_mapping_witness :
  mask_log_fields (Some ["recipient"; "message"]) None
    (JList [JStr "recipient-list"; JInt 3]) = Ok (JList [JStr "recipient-list"; JInt 3]) /\
  supplied None = None /\
  JList [JStr "recipient-list"; JInt 3] = JList [JStr "recipient-list"; JInt 3].
Proof.
  split; [reflexivity|].
  apply (mask_log_fields_non_mapping (Some ["recipient"; "message"]) None
           (JList [JStr "recipient-list"; JInt 3]) (JList [JStr "recipient-list"; JInt 3]));
    reflexivity.
Defined.

(** A second call of the primitive returns what the first returned, on every
    payload. *)
Lemma mask_log_fields_stable (bl wl : option (list string)) (p p1 : json) :
  mask_log_fields bl wl p = Ok p1 -> mask_log_fields bl wl p1 = Ok p1.
Proof.
  destruct (is_dict p) eqn:Hp.
  - destruct p; try discriminate. rewrite mask_log_fields_dict.
    intros H. inversion H; subst p1. rewrite mask_log_fields_dict.
    destruct (supplied wl), (supplied bl);
      rewrite ?mask_unlisted_twice, ?mask_listed_twice; reflexivity.
  - intros H. destruct (mask_log_fields_unchanged bl wl p p1 Hp H) as [_ ->]. exact H.
Qed.

(** ** What a row reads after masking *)

(** Every row masking overwrites the fields its shredder owns. *)
Lemma mask_row_owns (sh : shredder) (r : dict) :
  mask_row sh r =
  map (fun kv => if owns_row_field sh (fst kv) then (fst kv, masked) else kv) r.
Proof.
  destruct sh; cbn [mask_row owns_row_field]; try reflexivity.
  - symmetry. apply map_id.
  - unfold mask_answers. apply map_ext. intros [k v]; simpl.
    destruct (protected k); reflexivity.
Qed.

Lemma dict_get_overwritten (own : string -> bool) (f : string) (r : dict) :
  dict_get f (map (fun kv => if own (fst kv) then (fst kv, masked) else kv) r) =
  option_map (fun v => if own f then masked else v) (dict_get f r).
Proof.
  induction r as [|[k v] r IH]; simpl; [reflexivity|].
  destruct (String.eqb_spec k f) as [->|Hne].
  - destruct (own f); simpl; rewrite String.eqb_refl; reflexivity.
  - destruct (own k); simpl;
      (destruct (String.eqb_spec k f); [contradiction | exact IH]).
Qed.

Lemma dict_get_mask_row_owns (sh : shredder) (f : string) (r : dict) :
  dict_get f (mask_row sh r) =
  option_map (fun v => if owns_row_field sh f then masked else v) (dict_get f r).
Proof. rewrite mask_row_owns. apply dict_get_overwritten. Qed.

(** The rows of a payload after a shredder's loop body, guard included. *)
Lemma row_field_after (sh : shredder) (d : dict) (i : nat) (f : string) :
  row_field (after sh d) i f =
  option_map (fun v => if owns_row_field sh f then masked else v) (row_field d i f).
Proof.
  assert (Hid : forall o : option json,
            o = option_map (fun v => if owns_row_field InvoiceAddressShredder f
                                     then masked else v) o) by (intros [v|]; reflexivity).
  unfold after. destruct (sh_is_invoice sh) as [->|Hsh].
  - cbn [masked_payload].
    destruct (dict_get "invoice_data" d) as [[]|]; try apply Hid.
    unfold row_field. rewrite dict_get_update_other by discriminate. apply Hid.
  - assert (Hmp : masked_payload sh d =
             match dict_get "data" d with
             | Some (JList rows) =>
                 Some (dict_update "data" (JList (map (mask_row_json sh) rows)) d)
             | _ => None
             end) by (destruct sh; try reflexivity; congruence).
    rewrite Hmp. destruct (dict_get "data" d) as [c|] eqn:Hget.
    + destruct c; try (unfold row_field; rewrite Hget; reflexivity).
      rewrite (row_field_masked sh d l i f Hget). unfold row_field. rewrite Hget.
      destruct (nth_error l i) as [[]|]; try reflexivity.
      apply dict_get_mask_row_owns.
    + unfold row_field. rewrite Hget. reflexivity.
Qed.

(** After the loop body of the e-mail, attendee name or question answer
    shredder on a [data] list of row mappings, every row field the shredder
    owns reads as the marker and every other row field reads as before. *)
Theorem rows_read_after_masking (sh : shredder) (d : dict) (rows : list json) :
  sh <> InvoiceAddressShredder ->
  dict_get "data" d = Some (JList rows) ->
  forallb is_dict rows = true ->
  exists d',
    mask_order_modified sh (JDict d) = Ok (Some (JDict d')) /\
    forall i f,
      row_field d' i f =
      option_map (fun v => if owns_row_field sh f then masked else v) (row_field d i f).
Proof.
  intros Hsh Hget Hrows. eexists. split; [apply mask_rows_closed; eassumption|].
  intros i f. rewrite <- row_field_after. unfold after.
  replace (masked_payload sh d)
    with (Some (dict_update "data" (JList (map (mask_row_json sh) rows)) d));
    [reflexivity|].
  destruct sh; try congruence; cbn [masked_payload]; rewrite Hget; reflexivity.
Qed.

Lemma rows_read_after_masking_witness :
  exists d',
    mask_order_modified EmailAddressShredder acme_answers_payload = Ok (Some (JDict d')) /\
    row_field d' 0 "attendee_email" = Some masked /\
    row_field d' 0 "question_3" = Some (JStr "vegan").
Proof.
  destruct (rows_read_after_masking EmailAddressShredder
              [("data", JList [JDict [("attendee_name", JStr "Jane Doe");
                                      ("attendee_email", JStr "j@x.com");
                                      ("question_3", JStr "vegan")]]);
               ("invoice_data", JDict [("company", JStr "Acme"); ("vat_id", JStr "")])]
              [JDict [("attendee_name", JStr "Jane Doe");
                      ("attendee_email", JStr "j@x.com");
                      ("question_3", JStr "vegan")]]
              ltac:(discriminate) eq_refl eq_refl) as [d' [Hrun Hfields]].
  exists d'. split; [exact Hrun|]. split; rewrite Hfields; reflexivity.
Defined.

(** ** Several shredders on one payload *)

Lemma after_rows (sh : shredder) (d : dict) :
  sh <> InvoiceAddressShredder ->
  after sh d =
  match dict_get "data" d with
  | Some (JList rows) => dict_update "data" (JList (map (mask_row_json sh) rows)) d
  | _ => d
  end.
Proof.
  intros Hsh. unfold after.
  destruct sh; try congruence; cbn [masked_payload];
    destruct (dict_get "data" d) as [[]|]; reflexivity.
Qed.

Lemma after_invoice (d : dict) :
  after InvoiceAddressShredder d =
  match dict_get "invoice_data" d with
  | Some (JDict inv) => dict_update "invoice_data" (JDict (mask_truthy inv)) d
  | _ => d
  end.
Proof.
  unfold after; cbn [masked_payload].
  destruct (dict_get "invoice_data" d) as [[]|]; reflexivity.
Qed.

Lemma apply_rule_after (sh : shredder) (d : dict) :
  order_modified_shape (JDict d) = true ->
  apply_rule (OrderModified sh) (JDict d) = Ok (JDict (after sh d)).
Proof.
  intros Hshape. cbn [apply_rule]. rewrite (mask_order_modified_shape sh d Hshape).
  unfold after. destruct (masked_payload sh d); reflexivity.
Qed.

Lemma dict_get_data_present (d : dict) (c : json) :
  dict_get "data" d = Some c ->
  forall x, dict_get "data" (dict_update "data" x d) = Some x.
Proof.
  intros Hget x. rewrite dict_get_update_same, dict_has_get, Hget. reflexivity.
Qed.

Lemma dict_get_invoice_present (d : dict) (c : json) :
  dict_get "invoice_data" d = Some c ->
  forall x, dict_get "invoice_data" (dict_update "invoice_data" x d) = Some x.
Proof.
  intros Hget x. rewrite dict_get_update_same, dict_has_get, Hget. reflexivity.
Qed.

(** The shape of an "order modified" payload survives every loop body. *)
Lemma shape_after (sh : shredder) (d : dict) :
  order_modified_shape (JDict d) = true ->
  order_modified_shape (JDict (after sh d)) = true.
Proof.
  intros Hshape. pose proof Hshape as H. cbn [order_modified_shape] in H.
  apply andb_true_iff in H. destruct H as [Hdata Hinv].
  destruct (sh_is_invoice sh) as [->|Hsh].
  - rewrite after_invoice.
    destruct (dict_get "invoice_data" d) as [[]|] eqn:Hget; try exact Hshape.
    cbn [order_modified_shape].
    rewrite (dict_get_invoice_present d _ Hget), dict_get_update_other by discriminate.
    rewrite keys_mask_truthy, Hinv, andb_true_r. exact Hdata.
  - rewrite (after_rows sh d Hsh).
    destruct (dict_get "data" d) as [[]|] eqn:Hget; try exact Hshape.
    cbn [order_modified_shape].
    rewrite (dict_get_data_present d _ Hget), dict_get_update_other by discriminate.
    rewrite Hinv, andb_true_r. apply mask_row_json_dicts, Hdata.
Qed.

Lemma dict_update_swap (k k' : string) (v v' : json) (d : dict) :
  k <> k' ->
  dict_update k v (dict_update k' v' d) = dict_update k' v' (dict_update k v d).
Proof.
  intros Hne. unfold dict_update. rewrite !map_map. apply map_ext. intros [k0 v0]; simpl.
  destruct (k0 =? k') eqn:E1, (k0 =? k) eqn:E2; simpl; rewrite ?E1, ?E2; try reflexivity.
  apply String.eqb_eq in E1, E2. congruence.
Qed.

Lemma mask_row_json_swap (sh1 sh2 : shredder) (row : json) :
  mask_row_json sh1 (mask_row_json sh2 row) = mask_row_json sh2 (mask_row_json sh1 row).
Proof.
  destruct row; try reflexivity. cbn [mask_row_json]. f_equal.
  rewrite !mask_row_owns, !map_map. apply map_ext. intros [k v]; simpl.
  destruct (owns_row_field sh1 k) eqn:E1, (owns_row_field sh2 k) eqn:E2; simpl;
    rewrite ?E1, ?E2; reflexivity.
Qed.

(** The loop bodies of two shredders can run in either order. *)
Lemma after_swap (sh1 sh2 : shredder) (d : dict) :
  after sh2 (after sh1 d) = after sh1 (after sh2 d).
Proof.
  destruct (sh_is_invoice sh1) as [->|H1], (sh_is_invoice sh2) as [->|H2].
  - reflexivity.
  - rewrite !(after_rows sh2 _ H2), !after_invoice.
    destruct (dict_get "invoice_data" d) as [[]|] eqn:Hinv;
      destruct (dict_get "data" d) as [[]|] eqn:Hdata;
      rewrite ?dict_get_update_other by discriminate; rewrite ?Hinv, ?Hdata;
      try reflexivity.
    apply dict_update_swap. discriminate.
  - rewrite !(after_rows sh1 _ H1), !after_invoice.
    destruct (dict_get "invoice_data" d) as [[]|] eqn:Hinv;
      destruct (dict_get "data" d) as [[]|] eqn:Hdata;
      rewrite ?dict_get_update_other by discriminate; rewrite ?Hinv, ?Hdata;
      try reflexivity.
    apply dict_update_swap. discriminate.
  - rewrite !(after_rows sh2 _ H2), !(after_rows sh1 _ H1).
    destruct (dict_get "data" d) as [[]|] eqn:Hdata; rewrite ?Hdata; try reflexivity.
    rewrite !(dict_get_data_present d _ Hdata), !dict_update_twice, !map_map.
    do 2 f_equal. apply map_ext. intros row. apply mask_row_json_swap.
Qed.

(** On an "order modified" payload the loop bodies of any two shredders
    commute: both orders succeed and leave the same payload, which again has
    the shape of an "order modified" payload. *)
Theorem shredders_commute (sh1 sh2 : shredder) (p : json) :
  order_modified_shape p = true ->
  exists q,
    apply_all [sh1; sh2] p = Ok q /\
    apply_all [sh2; sh1] p = Ok q /\
    order_modified_shape q = true.
Proof.
  intros Hshape. destruct p as [| | | | | |d]; try discriminate.
  exists (JDict (after sh2 (after sh1 d))). unfold apply_all. cbn [foldM].
  rewrite !(apply_rule_after _ d Hshape). cbn [bind].
  rewrite (apply_rule_after sh2 _ (shape_after sh1 d Hshape)),
          (apply_rule_after sh1 _ (shape_after sh2 d Hshape)). cbn [bind].
  split; [reflexivity|]. split; [rewrite after_swap; reflexivity|].
  apply shape_after, shape_after, Hshape.
Qed.

Lemma shredders_commute_witness :
  order_modified_shape acme_answers_payload = true /\
  exists q,
    apply_all [InvoiceAddressShredder; QuestionAnswerShredder] acme_answers_payload = Ok q /\
    apply_all [QuestionAnswerShredder; InvoiceAddressShredder] acme_answers_payload = Ok q /\
    order_modified_shape q = true.
Proof.
  split; [reflexivity|].
  apply (shredders_commute InvoiceAddressShredder QuestionAnswerShredder
           acme_answers_payload).
  reflexivity.
Defined.

Lemma keys_after (sh : shredder) (d : dict) : keys (after sh d) = keys d.
Proof.
  destruct (sh_is_invoice sh) as [->|Hsh].
  - rewrite after_invoice. destruct (dict_get "invoice_data" d) as [[]|];
      try reflexivity. apply keys_dict_update.
  - rewrite (after_rows sh d Hsh). destruct (dict_get "data" d) as [[]|];
      try reflexivity. apply keys_dict_update.
Qed.

Lemma dict_get_after_other (sh : shredder) (k : string) (d : dict) :
  k <> "data" -> k <> "invoice_data" ->
  dict_get k (after sh d) = dict_get k d.
Proof.
  intros H1 H2. destruct (sh_is_invoice sh) as [->|Hsh].
  - rewrite after_invoice. destruct (dict_get "invoice_data" d) as [[]|];
      try reflexivity. apply dict_get_update_other, H2.
  - rewrite (after_rows sh d Hsh). destruct (dict_get "data" d) as [[]|];
      try reflexivity. apply dict_get_update_other, H1.
Qed.

Lemma invoice_data_field_after (sh : shredder) (d : dict) (f : string) :
  invoice_data_field (after sh d) f =
  option_map (fun v => if masks_invoice_data sh && truthy v then masked else v)
             (invoice_data_field d f).
Proof.
  destruct (sh_is_invoice sh) as [->|Hsh].
  - rewrite after_invoice. unfold invoice_data_field.
    destruct (dict_get "invoice_data" d) as [[]|] eqn:Hget; rewrite ?Hget; try reflexivity.
    rewrite (dict_get_invoice_present d _ Hget). apply dict_get_mask_truthy.
  - assert (Hm : masks_invoice_data sh = false) by (destruct sh; try reflexivity; congruence).
    rewrite Hm. cbn [andb].
    assert (Hsame : invoice_data_field (after sh d) f = invoice_data_field d f).
    { rewrite (after_rows sh d Hsh). destruct (dict_get "data" d) as [[]|];
        try reflexivity.
      unfold invoice_data_field. rewrite dict_get_update_other by discriminate.
      reflexivity. }
    rewrite Hsame. destruct (invoice_data_field d f); reflexivity.
Qed.

(** The effect of a sequence of loop bodies, read field by field. *)
Lemma any_sequence (shs : list shredder) (p : json) :
  order_modified_shape p = true ->
  exists d d',
    p = JDict d /\
    apply_all shs p = Ok (JDict d') /\
    keys d' = keys d /\
    (forall i f,
       row_field d' i f =
       option_map (fun v => if existsb (fun sh => owns_row_field sh f) shs
                            then masked else v) (row_field d i f)) /\
    (forall f,
       invoice_data_field d' f =
       option_map (fun v => if existsb masks_invoice_data shs && truthy v
                            then masked else v) (invoice_data_field d f)) /\
    (forall k, k <> "data" -> k <> "invoice_data" -> dict_get k d' = dict_get k d).
Proof.
  intros Hshape. destruct p as [| | | | | |d]; try discriminate.
  exists d. revert d Hshape. induction shs as [|sh shs IH]; intros d Hshape.
  - exists d. split; [reflexivity|]. split; [reflexivity|]. split; [reflexivity|].
    split; [|split]; intros; cbn [existsb andb];
      try match goal with |- _ = option_map _ ?o => destruct o end; reflexivity.
  - destruct (IH (after sh d) (shape_after sh d Hshape))
      as [d' [_ [Hrun [Hkeys [Hrows [Hinv Hother]]]]]].
    exists d'. split; [reflexivity|]. split.
    { unfold apply_all in *. cbn [foldM]. rewrite (apply_rule_after sh d Hshape).
      exact Hrun. }
    split; [rewrite Hkeys; apply keys_after|]. split; [|split].
    + intros i f. rewrite Hrows, row_field_after. cbn [existsb].
      destruct (row_field d i f) as [v|]; cbn [option_map]; [|reflexivity].
      destruct (owns_row_field sh f); cbn [orb]; [|reflexivity].
      destruct (existsb (fun sh0 => owns_row_field sh0 f) shs); reflexivity.
    + intros f. rewrite Hinv, invoice_data_field_after. cbn [existsb].
      destruct (invoice_data_field d f) as [v|]; cbn [option_map]; [|reflexivity].
      destruct (masks_invoice_data sh), (existsb masks_invoice_data shs),
               (truthy v) eqn:Ht; simpl; rewrite ?Ht; reflexivity.
    + intros k H1 H2. rewrite (Hother k H1 H2). apply dict_get_after_other; assumption.
Qed.

(** Any sequence of shredders, in any order, with repetitions or with some
    shredders missing, runs through on an "order modified" payload.  The
    payload keeps its keys.  A row field reads as the marker if one of the
    shredders owns it and as before otherwise; a field of [invoice_data]
    reads as the marker if the invoice address shredder was among them and
    the value was truthy, and as before otherwise; the top-level fields other
    than [data] and [invoice_data] read as before. *)
Theorem shredders_in_any_order (shs : list shredder) (p : json) :
  order_modified_shape p = true ->
  exists d d',
    p = JDict d /\
    apply_all shs p = Ok (JDict d') /\
    keys d' = keys d /\
    (forall i f,
       row_field d' i f =
       option_map (fun v => if existsb (fun sh => owns_row_field sh f) shs
                            then masked else v) (row_field d i f)) /\
    (forall f,
       invoice_data_field d' f =
       option_map (fun v => if existsb masks_invoice_data shs && truthy v
                            then masked else v) (invoice_data_field d f)) /\
    (forall k, k <> "data" -> k <> "invoice_data" -> dict_get k d' = dict_get k d).
Proof. apply any_sequence. Qed.

Lemma shredders_in_any_order_witness :
  exists d',
    apply_all [AttendeeNameShredder; EmailAddressShredder; AttendeeNameShredder]
      acme_answers_payload = Ok (JDict d') /\
    row_field d' 0 "attendee_name" = Some masked /\
    row_field d' 0 "question_3" = Some (JStr "vegan") /\
    invoice_data_field d' "company" = Some (JStr "Acme").
Proof.
  destruct (shredders_in_any_order
              [AttendeeNameShredder; EmailAddressShredder; AttendeeNameShredder]
              acme_answers_payload eq_refl)
    as [d [d' [Hd [Hrun [_ [Hrows [Hinv _]]]]]]].
  exists d'. split; [exact Hrun|]. inversion Hd; subst d.
  split; [|split]; rewrite ?Hrows, ?Hinv; reflexivity.
Defined.

(** After the loop bodies of all four registered shredders, whatever the
    payload's rows held reads as the marker, field by field, and so does
    every truthy field of [invoice_data]; no shredder masks a top-level field
    other than [data] and [invoice_data]. *)
Theorem registered_shredders_mask_all (p : json) :
  order_modified_shape p = true ->
  exists d d',
    p = JDict d /\
    apply_all register_payment_provider p = Ok (JDict d') /\
    (forall i f, row_field d' i f = option_map (fun _ => masked) (row_field d i f)) /\
    (forall f,
       invoice_data_field d' f =
       option_map (fun v => if truthy v then masked else v) (invoice_data_field d f)) /\
    (forall k, k <> "data" -> k <> "invoice_data" -> dict_get k d' = dict_get k d).
Proof.
  intros Hshape.
  destruct (any_sequence register_payment_provider p Hshape)
    as [d [d' [Hd [Hrun [_ [Hrows [Hinv Hother]]]]]]].
  exists d, d'. split; [exact Hd|]. split; [exact Hrun|]. split; [|split].
  - intros i f. rewrite Hrows. destruct (row_field d i f) as [v|]; [|reflexivity].
    cbn [option_map register_payment_provider existsb owns_row_field].
    destruct (f =? "attendee_email") eqn:E1; [reflexivity|].
    destruct (f =? "attendee_name") eqn:E2; [reflexivity|].
    unfold protected. rewrite E1, E2. reflexivity.
  - intros f. rewrite Hinv. reflexivity.
  - exact Hother.
Qed.

Lemma registered_shredders_mask_all_witness :
  exists d',
    apply_all register_payment_provider acme_answers_payload = Ok (JDict d') /\
    row_field d' 0 "question_3" = Some masked /\
    invoice_data_field d' "vat_id" = Some (JStr "").
Proof.
  destruct (registered_shredders_mask_all acme_answers_payload eq_refl)
    as [d [d' [Hd [Hrun [Hrows [Hinv _]]]]]].
  exists d'. split; [exact Hrun|]. inversion Hd; subst d.
  split; rewrite ?Hrows, ?Hinv; reflexivity.
Defined.

(** ** The log table, row by row *)

Lemma save_logentry_rows_map (le : LogEntry) (db : Db) :
  logentries (save_logentry le db) = map (saved_row le) (logentries db).
Proof. reflexivity. Qed.

(** A loop that completes has applied its saves, in order, to every row. *)
Lemma for_each_rows (payload : LogEntry -> exc (option json))
    (body : LogEntry -> M unit) (qs : list LogEntry) :
  (forall le db, body le db = loop_body payload le db) ->
  forall db db',
    for_each qs body db = Ok (tt, db') ->
    logentries db' = map (fun r => fold_left (row_step payload) qs r) (logentries db).
Proof.
  intros Hbody. induction qs as [|le qs IH]; intros db db' Hrun.
  - cbn in Hrun. inversion Hrun; subst db'. cbn [fold_left].
    symmetry. apply map_id.
  - cbn [for_each] in Hrun. unfold bindM in Hrun at 1. rewrite Hbody in Hrun.
    unfold loop_body, bindM, lift in Hrun. cbn [fold_left]. unfold row_step at 2.
    destruct (payload le) as [[d'|]|e]; [| |discriminate].
    + cbn [execute] in Hrun. apply IH in Hrun.
      rewrite Hrun, save_logentry_rows_map, map_map. reflexivity.
    + cbn [ret] in Hrun. apply IH, Hrun.
Qed.

(** A loop whose bodies all return completes. *)
Lemma for_each_completes (payload : LogEntry -> exc (option json))
    (body : LogEntry -> M unit) (qs : list LogEntry) :
  (forall le db, body le db = loop_body payload le db) ->
  (forall le, In le qs -> exists res, payload le = Ok res) ->
  forall db, exists db', for_each qs body db = Ok (tt, db').
Proof.
  intros Hbody. induction qs as [|le qs IH]; intros Hok db.
  - exists db. reflexivity.
  - cbn [for_each]. unfold bindM at 1. rewrite Hbody. unfold loop_body, bindM, lift.
    destruct (Hok le (or_introl eq_refl)) as [res Hres]. rewrite Hres.
    assert (Hok' : forall le0, In le0 qs -> exists res0, payload le0 = Ok res0)
      by (intros le0 Hin; apply Hok; right; exact Hin).
    destruct res as [d'|]; cbn [execute ret]; apply (IH Hok').
Qed.

Lemma le_pk_row_step (payload : LogEntry -> exc (option json)) (r le : LogEntry) :
  le_pk (row_step payload r le) = le_pk r.
Proof.
  unfold row_step, saved_row. destruct (payload le) as [[d'|]|]; try reflexivity.
  destruct (le_pk r =? le_pk (rewritten le d'))%nat; reflexivity.
Qed.

(** Saves of entries with other keys leave a row alone. *)
Lemma row_steps_other (payload : LogEntry -> exc (option json))
    (qs : list LogEntry) (r : LogEntry) :
  (forall le, In le qs -> le_pk le <> le_pk r) ->
  fold_left (row_step payload) qs r = r.
Proof.
  revert r. induction qs as [|le qs IH]; intros r Hne; [reflexivity|].
  cbn [fold_left].
  assert (Hstep : row_step payload r le = r).
  { unfold row_step, saved_row. destruct (payload le) as [[d'|]|]; try reflexivity.
    cbn [rewritten le_pk].
    destruct (Nat.eqb_spec (le_pk r) (le_pk le)) as [E|E]; [|reflexivity].
    exfalso. apply (Hne le (or_introl eq_refl)). congruence. }
  rewrite Hstep. apply IH. intros le0 Hin. apply Hne. right. exact Hin.
Qed.

(** With distinct keys among the visited entries, a row is touched by the
    save of its own entry only. *)
Lemma row_steps_unique (payload : LogEntry -> exc (option json))
    (qs : list LogEntry) (r : LogEntry) :
  NoDup (map le_pk qs) ->
  (forall le, In le qs -> le_pk le = le_pk r -> le = r) ->
  fold_left (row_step payload) qs r =
  if existsb (fun le => le_pk le =? le_pk r)%nat qs
  then match payload r with Ok (Some d') => rewritten r d' | _ => r end
  else r.
Proof.
  induction qs as [|le qs IH]; intros Hnd Hinj; [reflexivity|].
  inversion Hnd as [|? ? Hnotin Hnd']; subst.
  cbn [fold_left existsb].
  destruct (Nat.eqb_spec (le_pk le) (le_pk r)) as [E|E]; cbn [orb].
  - assert (le = r) by (apply Hinj; [left; reflexivity | exact E]). subst le.
    rewrite row_steps_other.
    + unfold row_step, saved_row. destruct (payload r) as [[d'|]|]; try reflexivity.
      cbn [rewritten le_pk]. rewrite Nat.eqb_refl. reflexivity.
    + intros le0 Hin. rewrite le_pk_row_step. intros Heq. apply Hnotin.
      rewrite <- Heq. apply in_map, Hin.
  - assert (Hstep : row_step payload r le = r).
    { unfold row_step, saved_row. destruct (payload le) as [[d'|]|]; try reflexivity.
      cbn [rewritten le_pk].
      destruct (Nat.eqb_spec (le_pk r) (le_pk le)); [congruence | reflexivity]. }
    rewrite Hstep. apply IH; [exact Hnd'|].
    intros le0 Hin. apply Hinj. right. exact Hin.
Qed.

(** The entries a query selects from a table with distinct keys have
    distinct keys. *)
Lemma selected_keys_distinct (sel : LogEntry -> bool) (table : list LogEntry) :
  NoDup (map le_pk table) -> NoDup (map le_pk (filter sel table)).
Proof.
  induction table as [|r table IH]; cbn [map filter]; intros H; [constructor|].
  inversion H as [|? ? Hfresh Hrest]; subst.
  destruct (sel r); [|apply IH, Hrest]. cbn [map]. constructor; [|apply IH, Hrest].
  intros Hin. apply Hfresh. apply in_map_iff in Hin. destruct Hin as [x [Hx Hin]].
  apply filter_In in Hin. rewrite <- Hx. apply in_map, Hin.
Qed.

(** Two rows of a table with distinct keys that have the same key are the
    same row. *)
Lemma same_key_same_row (table : list LogEntry) (r1 r2 : LogEntry) :
  NoDup (map le_pk table) -> In r1 table -> In r2 table ->
  le_pk r1 = le_pk r2 -> r1 = r2.
Proof.
  induction table as [|x table IH]; cbn [map]; intros Hnd H1 H2 Hpk; [contradiction|].
  inversion Hnd as [|? ? Hfresh Hrest]; subst.
  destruct H1 as [->|H1], H2 as [->|H2]; try reflexivity.
  - exfalso. apply Hfresh. rewrite Hpk. apply in_map, H2.
  - exfalso. apply Hfresh. rewrite <- Hpk. apply in_map, H1.
  - apply IH; assumption.
Qed.

(** With unique primary keys a scan rewrites each selected row with the
    payload of its own loop body and leaves the other rows alone. *)
Lemma scan_rows (payload : LogEntry -> exc (option json)) (body : LogEntry -> M unit)
    (event : nat) (sel : LogEntry -> bool) (db db' : Db) :
  (forall le db, body le db = loop_body payload le db) ->
  NoDup (map le_pk (logentries db)) ->
  (qs <~ query (logentry_set event sel) ;; for_each qs body) db = Ok (tt, db') ->
  logentries db' = map (scan_row event sel payload) (logentries db).
Proof.
  intros Hbody Hnd Hrun.
  change (for_each (logentry_set event sel db) body db = Ok (tt, db')) in Hrun.
  rewrite (for_each_rows payload body _ Hbody db db' Hrun).
  apply map_ext_in. intros r Hin. unfold logentry_set.
  set (keep := fun le => (le_event le =? event)%nat && sel le).
  rewrite row_steps_unique.
  - unfold scan_row. fold (keep r).
    destruct (keep r) eqn:Hk.
    + assert (Hex : existsb (fun le => le_pk le =? le_pk r)%nat
                            (filter keep (logentries db)) = true).
      { apply existsb_exists. exists r. split; [apply filter_In; auto | apply Nat.eqb_refl]. }
      rewrite Hex. reflexivity.
    + assert (Hex : existsb (fun le => le_pk le =? le_pk r)%nat
                            (filter keep (logentries db)) = false).
      { apply not_true_is_false. intros H. apply existsb_exists in H.
        destruct H as [le [Hle Hpk]]. apply filter_In in Hle. destruct Hle as [Hle Hkle].
        apply Nat.eqb_eq in Hpk.
        assert (le = r) by (eapply same_key_same_row; eassumption). subst le.
        congruence. }
      rewrite Hex. reflexivity.
  - apply selected_keys_distinct, Hnd.
  - intros le Hle Hpk. apply filter_In in Hle. destruct Hle as [Hle _].
    eapply same_key_same_row; eassumption.
Qed.

(** ** [shred_data], row by row *)

Lemma shred_data_halves (sh : shredder) (event : nat) (db : Db) :
  shred_data sh event db = scan_logentries sh event (update_records sh event db).
Proof. destruct sh; reflexivity. Qed.

Lemma logentries_update_records (sh : shredder) (event : nat) (db : Db) :
  logentries (update_records sh event db) = logentries db.
Proof. destruct sh; reflexivity. Qed.

Lemma scan_row_keeps (event : nat) (sel : LogEntry -> bool)
    (payload : LogEntry -> exc (option json)) (r : LogEntry) :
  le_pk (scan_row event sel payload r) = le_pk r /\
  le_event (scan_row event sel payload r) = le_event r /\
  action_type (scan_row event sel payload r) = action_type r.
Proof.
  unfold scan_row. destruct ((le_event r =? event)%nat && sel r); [|auto].
  destruct (payload r) as [[d'|]|]; auto.
Qed.

Lemma scan_rows_keys (event : nat) (sel : LogEntry -> bool)
    (payload : LogEntry -> exc (option json)) (l : list LogEntry) :
  map le_pk (map (scan_row event sel payload) l) = map le_pk l.
Proof.
  rewrite map_map. apply map_ext. intros r. apply scan_row_keeps.
Qed.

(** The three kinds of entries the scans select exclude one another. *)
Lemma kinds_disjoint (r : LogEntry) :
  (is_order_modified r = true -> is_order_email r = false /\ is_contact_changed r = false) /\
  (is_contact_changed r = true -> is_order_email r = false).
Proof.
  unfold is_order_modified, is_order_email, is_contact_changed. split.
  - intros H. apply andb_true_iff in H. destruct H as [H _].
    apply String.eqb_eq in H. rewrite H. split; reflexivity.
  - intros H. apply String.eqb_eq in H. rewrite H. reflexivity.
Qed.

(** A scan with its completion facts: the rows after it, and the loop bodies
    that returned. *)
Lemma scan_rows_ok (payload : LogEntry -> exc (option json)) (body : LogEntry -> M unit)
    (event : nat) (sel : LogEntry -> bool) (db db' : Db) :
  (forall le db, body le db = loop_body payload le db) ->
  NoDup (map le_pk (logentries db)) ->
  (qs <~ query (logentry_set event sel) ;; for_each qs body) db = Ok (tt, db') ->
  same_records db db' /\
  logentries db' = map (scan_row event sel payload) (logentries db) /\
  (forall r, In r (logentries db) -> (le_event r =? event)%nat && sel r = true ->
             exists res, payload r = Ok res).
Proof.
  intros Hbody Hnd Hrun. split; [|split].
  - change (for_each (logentry_set event sel db) body db = Ok (tt, db')) in Hrun.
    apply (for_each_logentries payload body _ Hbody db db' Hrun).
  - eapply scan_rows; eassumption.
  - intros r Hin Hsel.
    change (for_each (logentry_set event sel db) body db = Ok (tt, db')) in Hrun.
    destruct (for_each_logentries payload body _ Hbody db db' Hrun) as [_ [Hok _]].
    apply Hok. apply filter_In. auto.
Qed.

Lemma scan_row_not_selected (event : nat) (sel : LogEntry -> bool)
    (payload : LogEntry -> exc (option json)) (r : LogEntry) :
  (le_event r =? event)%nat && sel r = false ->
  scan_row event sel payload r = r.
Proof. intros H. unfold scan_row. rewrite H. reflexivity. Qed.

(** With unique primary keys, [shred_data] that completes has turned every
    row into [shredded_row] of it, and the loop bodies of the rows its scans
    selected have returned. *)
Lemma shred_data_rows (sh : shredder) (event : nat) (db db' : Db) :
  NoDup (map le_pk (logentries db)) ->
  shred_data sh event db = Ok (tt, db') ->
  same_records (update_records sh event db) db' /\
  logentries db' = map (shredded_row sh event) (logentries db) /\
  (forall r, In r (logentries db) ->
             (le_event r =? event)%nat && is_order_modified r = true ->
             exists res, modified_payload sh r = Ok res) /\
  (sh = EmailAddressShredder ->
   forall r, In r (logentries db) -> (le_event r =? event)%nat = true ->
     (is_order_email r = true ->
      exists res, primitive_payload (Some ["recipient"; "message"]) None r = Ok res) /\
     (is_contact_changed r = true ->
      exists res, primitive_payload (Some ["old_email"; "new_email"]) None r = Ok res)).
Proof.
  intros Hnd Hrun. rewrite shred_data_halves in Hrun.
  rewrite <- (logentries_update_records sh event db) in *.
  set (db0 := update_records sh event db) in *. clearbody db0.
  assert (Hone : sh <> EmailAddressShredder ->
            shred_order_modified sh event db0 = Ok (tt, db') ->
            same_records db0 db' /\
            logentries db' = map (shredded_row sh event) (logentries db0) /\
            (forall r, In r (logentries db0) ->
                       (le_event r =? event)%nat && is_order_modified r = true ->
                       exists res, modified_payload sh r = Ok res)).
  { intros Hsh H.
    destruct (scan_rows_ok (modified_payload sh) _ event is_order_modified db0 db'
                (order_modified_body sh) Hnd H) as [Hrec [Hrows Hok]].
    split; [exact Hrec|]. split; [|exact Hok].
    rewrite Hrows. destruct sh; try congruence; reflexivity. }
  destruct sh; cbn [scan_logentries] in Hrun;
    try (destruct (Hone ltac:(discriminate) Hrun) as [Hrec [Hrows Hok]];
         split; [exact Hrec|]; split; [exact Hrows|]; split; [exact Hok|];
         discriminate).
  clear Hone.
  apply bindM_inv in Hrun. destruct Hrun as [[] [db1 [H1 Hrun]]].
  apply bindM_inv in Hrun. destruct Hrun as [[] [db2 [H2 H3]]].
  destruct (scan_rows_ok _ _ event is_order_email db0 db1
              (shred_log_fields_body (Some ["recipient"; "message"]) None) Hnd H1)
    as [Hrec1 [Hrows1 Hok1]].
  assert (Hnd1 : NoDup (map le_pk (logentries db1)))
    by (rewrite Hrows1, scan_rows_keys; exact Hnd).
  destruct (scan_rows_ok _ _ event is_contact_changed db1 db2
              (shred_log_fields_body (Some ["old_email"; "new_email"]) None) Hnd1 H2)
    as [Hrec2 [Hrows2 Hok2]].
  assert (Hnd2 : NoDup (map le_pk (logentries db2)))
    by (rewrite Hrows2, scan_rows_keys; exact Hnd1).
  destruct (scan_rows_ok _ _ event is_order_modified db2 db'
              (order_modified_body EmailAddressShredder) Hnd2 H3)
    as [Hrec3 [Hrows3 Hok3]].
  split; [eauto using same_records_trans|].
  split; [rewrite Hrows3, Hrows2, Hrows1, !map_map; reflexivity|].
  split; [|intros _ r Hin H; split].
  - intros r Hin Hsel. pose proof Hsel as Hsel'. apply andb_true_iff in Hsel'.
    destruct Hsel' as [He Hm]. destruct (proj1 (kinds_disjoint r) Hm) as [Hne Hnc].
    apply Hok3; [|exact Hsel]. rewrite Hrows2, Hrows1, map_map.
    apply in_map_iff. exists r. split; [|exact Hin].
    rewrite (scan_row_not_selected event is_order_email _ r)
      by (rewrite Hne; apply andb_false_r).
    apply scan_row_not_selected. rewrite Hnc. apply andb_false_r.
  - intros Hk. apply Hok1; [exact Hin|]. rewrite H, Hk. reflexivity.
  - intros Hk. apply Hok2; [|rewrite H, Hk; reflexivity].
    rewrite Hrows1. apply in_map_iff. exists r. split; [|exact Hin].
    apply scan_row_not_selected.
    rewrite (proj2 (kinds_disjoint r) Hk). apply andb_false_r.
Qed.

Lemma Forall2_map_self {A B : Type} (f : A -> B) (P : A -> B -> Prop) (l : list A) :
  (forall a, In a l -> P a (f a)) -> Forall2 P l (map f l).
Proof.
  induction l as [|a l IH]; intros H; cbn [map]; constructor.
  - apply H. left. reflexivity.
  - apply IH. intros x Hx. apply H. right. exact Hx.
Qed.

(** A loop body that does not find its section writes nothing. *)
Lemma no_section_no_rewrite (sh : shredder) (p : json) (res : option json) :
  has_section sh p = false ->
  mask_order_modified sh p = Ok res -> res = None.
Proof.
  intros Hsec H. destruct (is_dict p) eqn:Hp.
  - destruct p as [| | | | | |d]; try discriminate. cbn [has_section] in Hsec.
    destruct (sh_is_invoice sh) as [->|Hsh].
    + unfold mask_order_modified in H. cbn [py_contains py_getitem bind] in H.
      rewrite dict_has_get in H.
      destruct (dict_get "invoice_data" d) as [v|]; cbn [is_some bind] in H.
      * apply negb_false_iff in Hsec. rewrite Hsec in H. congruence.
      * congruence.
    + assert (Hhas : dict_has "data" d = false) by (destruct sh; congruence).
      destruct sh; try congruence;
        unfold mask_order_modified in H; cbn [py_contains bind] in H;
        rewrite Hhas in H; congruence.
  - destruct sh, p; try discriminate Hp;
      unfold mask_order_modified in H; cbn [py_contains py_getitem bind] in H;
      try discriminate H;
      match type of H with context [if ?c then _ else _] => destruct c end;
      cbn [bind] in H; congruence.
Qed.

Lemma is_order_email_action (r r' : LogEntry) :
  action_type r' = action_type r -> is_order_email r' = is_order_email r.
Proof. unfold is_order_email. intros ->. reflexivity. Qed.

Lemma is_contact_changed_action (r r' : LogEntry) :
  action_type r' = action_type r -> is_contact_changed r' = is_contact_changed r.
Proof. unfold is_contact_changed. intros ->. reflexivity. Qed.

Lemma is_order_modified_action (r : LogEntry) :
  is_order_modified r = true -> action_type r = "pretix.event.order.modified".
Proof.
  unfold is_order_modified. intros H. apply andb_true_iff in H.
  apply String.eqb_eq, H.
Qed.

Lemma not_modified_by_action (r : LogEntry) :
  is_order_email r = true \/ is_contact_changed r = true ->
  forall r', action_type r' = action_type r -> is_order_modified r' = false.
Proof.
  intros Hk r' Ha. destruct (is_order_modified r') eqn:Hm; [|reflexivity].
  apply is_order_modified_action in Hm. rewrite Ha in Hm.
  unfold is_order_email, is_contact_changed in Hk. rewrite Hm in Hk.
  destruct Hk; discriminate.
Qed.

(** Each row is the business of one scan at most. *)
Lemma shredded_row_modified (sh : shredder) (event : nat) (r : LogEntry) :
  is_order_modified r = true ->
  shredded_row sh event r = scan_row event is_order_modified (modified_payload sh) r.
Proof.
  intros Hm. destruct (proj1 (kinds_disjoint r) Hm) as [Hne Hnc].
  destruct sh; try reflexivity. cbn [shredded_row].
  rewrite (scan_row_not_selected event is_order_email _ r)
    by (rewrite Hne; apply andb_false_r).
  rewrite (scan_row_not_selected event is_contact_changed _ r)
    by (rewrite Hnc; apply andb_false_r).
  reflexivity.
Qed.

Lemma shredded_row_order_email (event : nat) (r : LogEntry) :
  is_order_email r = true ->
  shredded_row EmailAddressShredder event r =
  scan_row event is_order_email (primitive_payload (Some ["recipient"; "message"]) None) r.
Proof.
  intros Hk. cbn [shredded_row].
  set (r1 := scan_row event is_order_email _ r).
  assert (Ha : action_type r1 = action_type r) by apply scan_row_keeps.
  assert (Hc : is_contact_changed r1 = false).
  { rewrite (is_contact_changed_action r r1 Ha).
    destruct (is_contact_changed r) eqn:E; [|reflexivity].
    apply (proj2 (kinds_disjoint r)) in E. congruence. }
  rewrite (scan_row_not_selected event is_contact_changed _ r1)
    by (rewrite Hc; apply andb_false_r).
  apply scan_row_not_selected.
  rewrite (not_modified_by_action r (or_introl Hk) r1 Ha). apply andb_false_r.
Qed.

Lemma shredded_row_contact_changed (event : nat) (r : LogEntry) :
  is_contact_changed r = true ->
  shredded_row EmailAddressShredder event r =
  scan_row event is_contact_changed
    (primitive_payload (Some ["old_email"; "new_email"]) None) r.
Proof.
  intros Hk. cbn [shredded_row].
  rewrite (scan_row_not_selected event is_order_email _ r)
    by (rewrite (proj2 (kinds_disjoint r) Hk); apply andb_false_r).
  set (r2 := scan_row event is_contact_changed _ r).
  assert (Ha : action_type r2 = action_type r) by apply scan_row_keeps.
  apply scan_row_not_selected.
  rewrite (not_modified_by_action r (or_intror Hk) r2 Ha). apply andb_false_r.
Qed.

Lemma shredded_row_untouched (sh : shredder) (event : nat) (r : LogEntry) :
  rewritten_by sh event r = false -> shredded_row sh event r = r.
Proof.
  unfold rewritten_by. intros H.
  destruct (le_event r =? event)%nat eqn:He; cbn [andb] in H.
  2:{ destruct sh; cbn [shredded_row];
        rewrite ?(scan_row_not_selected event _ _ r) by (rewrite He; reflexivity);
        reflexivity. }
  apply orb_false_iff in H. destruct H as [Hmod Hmail].
  assert (Hscan : scan_row event is_order_modified (modified_payload sh) r = r).
  { unfold scan_row. rewrite He. cbn [andb].
    destruct (is_order_modified r); [|reflexivity]. cbn [andb] in Hmod.
    unfold modified_payload, parsed_data.
    destruct (data r) as [| |p]; try reflexivity. cbn [bind].
    destruct (mask_order_modified sh p) as [[d'|]|] eqn:Hp; try reflexivity.
    apply (no_section_no_rewrite sh p _ Hmod) in Hp. discriminate. }
  destruct sh; try exact Hscan. cbn [shredded_row].
  apply orb_false_iff in Hmail. destruct Hmail as [Hne Hnc].
  rewrite (scan_row_not_selected event is_order_email _ r)
    by (rewrite Hne; apply andb_false_r).
  rewrite (scan_row_not_selected event is_contact_changed _ r)
    by (rewrite Hnc; apply andb_false_r).
  exact Hscan.
Qed.

(** When primary keys are unique, a completed [shred_data] has left exactly
    as they were (text and flag) all the rows it does not rewrite: the
    entries of other events and of other action types, the "order modified"
    entries with an empty text and those whose payload lacks the shredder's
    section. *)
Theorem shred_data_leaves_other_rows (sh : shredder) (event : nat) (db db' : Db) :
  NoDup (map le_pk (logentries db)) ->
  shred_data sh event db = Ok (tt, db') ->
  Forall2 (fun r r' => rewritten_by sh event r = false -> r' = r)
          (logentries db) (logentries db').
Proof.
  intros Hnd Hrun. destruct (shred_data_rows sh event db db' Hnd Hrun) as [_ [Hrows _]].
  rewrite Hrows. apply Forall2_map_self. intros r _ H.
  apply shredded_row_untouched, H.
Qed.

Lemma shop_keys : NoDup (map le_pk (logentries shop)).
Proof. repeat constructor; simpl; intuition discriminate. Qed.

Lemma shred_data_leaves_other_rows_witness :
  exists db',
    shred_data AttendeeNameShredder 7 shop = Ok (tt, db') /\
    Forall2 (fun r r' => rewritten_by AttendeeNameShredder 7 r = false -> r' = r)
            (logentries shop) (logentries db').
Proof.
  eexists. split; [vm_compute; reflexivity|].
  apply (shred_data_leaves_other_rows AttendeeNameShredder 7 shop).
  - exact shop_keys.
  - vm_compute. reflexivity.
Defined.

(** When primary keys are unique, the text a completed [shred_data] has
    saved in a row is the masked payload of that very row: for an "order
    modified" entry of the event the result of the shredder's loop body on
    its payload (the row is as before when the body writes nothing), and for
    the entries of the two e-mail scans the result of the redaction primitive
    with the scan's blacklist; the row is flagged in the same write. *)
Theorem shred_data_saves_masked_payload (sh : shredder) (event : nat) (db db' : Db) :
  NoDup (map le_pk (logentries db)) ->
  shred_data sh event db = Ok (tt, db') ->
  Forall2 (fun r r' =>
             forall p, le_event r = event -> data r = TextJson p ->
               (is_order_modified r = true ->
                exists res, mask_order_modified sh p = Ok res /\
                            r' = match res with Some d' => rewritten r d' | None => r end) /\
               (sh = EmailAddressShredder -> is_order_email r = true ->
                exists d', mask_log_fields (Some ["recipient"; "message"]) None p = Ok d' /\
                           r' = rewritten r d') /\
               (sh = EmailAddressShredder -> is_contact_changed r = true ->
                exists d', mask_log_fields (Some ["old_email"; "new_email"]) None p = Ok d' /\
                           r' = rewritten r d'))
          (logentries db) (logentries db').
Proof.
  intros Hnd Hrun.
  destruct (shred_data_rows sh event db db' Hnd Hrun) as [_ [Hrows [Hokm Hokp]]].
  rewrite Hrows. apply Forall2_map_self. intros r Hin p He Hdata.
  assert (He' : (le_event r =? event)%nat = true) by (apply Nat.eqb_eq, He).
  assert (Hprim : forall bl res,
            primitive_payload bl None r = Ok res ->
            exists d', mask_log_fields bl None p = Ok d' /\ res = Some d').
  { intros bl res. unfold primitive_payload, parsed_data. rewrite Hdata. cbn [bind].
    destruct (mask_log_fields bl None p) as [d'|]; [|discriminate]. cbn [bind].
    intros H. inversion H. eauto. }
  split; [|split].
  - intros Hm. rewrite (shredded_row_modified sh event r Hm).
    destruct (Hokm r Hin) as [res Hres]; [rewrite He', Hm; reflexivity|].
    unfold scan_row. rewrite He', Hm, Hres. cbn [andb].
    unfold modified_payload, parsed_data in Hres. rewrite Hdata in Hres. cbn [bind] in Hres.
    exists res. split; [exact Hres|]. destruct res; reflexivity.
  - intros -> Hk. rewrite (shredded_row_order_email event r Hk).
    destruct (proj1 (Hokp eq_refl r Hin He') Hk) as [res Hres].
    unfold scan_row. rewrite He', Hk, Hres. cbn [andb].
    destruct (Hprim _ _ Hres) as [d' [Hd ->]]. eauto.
  - intros -> Hk. rewrite (shredded_row_contact_changed event r Hk).
    destruct (proj2 (Hokp eq_refl r Hin He') Hk) as [res Hres].
    unfold scan_row. rewrite He', Hk, Hres. cbn [andb].
    destruct (Hprim _ _ Hres) as [d' [Hd ->]]. eauto.
Qed.

Lemma shred_data_saves_masked_payload_witness :
  exists db',
    shred_data EmailAddressShredder 7 shop = Ok (tt, db') /\
    Forall2 (fun r r' =>
               forall p, le_event r = 7%nat -> data r = TextJson p ->
                 (is_order_modified r = true ->
                  exists res, mask_order_modified EmailAddressShredder p = Ok res /\
                              r' = match res with
                                   | Some d' => rewritten r d'
                                   | None => r
                                   end) /\
                 (EmailAddressShredder = EmailAddressShredder -> is_order_email r = true ->
                  exists d', mask_log_fields (Some ["recipient"; "message"]) None p = Ok d' /\
                             r' = rewritten r d') /\
                 (EmailAddressShredder = EmailAddressShredder -> is_contact_changed r = true ->
                  exists d', mask_log_fields (Some ["old_email"; "new_email"]) None p = Ok d' /\
                             r' = rewritten r d'))
            (logentries shop) (logentries db').
Proof.
  eexists. split; [vm_compute; reflexivity|].
  apply (shred_data_saves_masked_payload EmailAddressShredder 7 shop).
  - exact shop_keys.
  - vm_compute. reflexivity.
Defined.

(** ** Running a shredder again *)

Lemma masked_payload_after (sh : shredder) (d d' : dict) :
  masked_payload sh d = Some d' -> d' = after sh d.
Proof. unfold after. intros ->. reflexivity. Qed.

(** The loop body rewrites its own result with itself. *)
Lemma masked_payload_stable (sh : shredder) (d d' : dict) :
  masked_payload sh d = Some d' -> masked_payload sh d' = Some d'.
Proof.
  destruct (sh_is_invoice sh) as [->|Hsh].
  - cbn [masked_payload].
    destruct (dict_get "invoice_data" d) as [[]|] eqn:Hget; try discriminate.
    intros H. inversion H; subst d'.
    rewrite (dict_get_invoice_present d _ Hget), dict_update_twice, mask_truthy_twice.
    reflexivity.
  - assert (Hmp : forall x, masked_payload sh x =
             match dict_get "data" x with
             | Some (JList rows) =>
                 Some (dict_update "data" (JList (map (mask_row_json sh) rows)) x)
             | _ => None
             end) by (intros x; destruct sh; try reflexivity; congruence).
    rewrite !Hmp. destruct (dict_get "data" d) as [[]|] eqn:Hget; try discriminate.
    intros H. inversion H; subst d'.
    rewrite (dict_get_data_present d _ Hget), dict_update_twice, map_map.
    do 3 f_equal. apply map_ext. intros row. apply mask_row_json_twice.
Qed.

Lemma modified_payload_stable (sh : shredder) (r : LogEntry) (p q : json) :
  data r = TextJson p ->
  order_modified_shape p = true ->
  modified_payload sh r = Ok (Some q) ->
  modified_payload sh (rewritten r q) = Ok (Some q).
Proof.
  intros Hdata Hshape. unfold modified_payload, parsed_data. rewrite Hdata.
  cbn [bind rewritten data]. destruct p as [| | | | | |d]; try discriminate.
  rewrite (mask_order_modified_shape sh d Hshape).
  destruct (masked_payload sh d) as [d'|] eqn:Hmp; cbn [option_map]; [|discriminate].
  intros H. inversion H; subst q.
  rewrite mask_order_modified_shape.
  - rewrite (masked_payload_stable sh d d' Hmp). reflexivity.
  - rewrite (masked_payload_after sh d d' Hmp). apply shape_after, Hshape.
Qed.

Lemma primitive_payload_stable (bl wl : option (list string)) (r : LogEntry) (q : json) :
  primitive_payload bl wl r = Ok (Some q) ->
  primitive_payload bl wl (rewritten r q) = Ok (Some q).
Proof.
  unfold primitive_payload, parsed_data.
  destruct (data r) as [| |p]; try discriminate. cbn [bind rewritten data].
  destruct (mask_log_fields bl wl p) as [p1|] eqn:Hp; [|discriminate]. cbn [bind].
  intros H. inversion H; subst q.
  rewrite (mask_log_fields_stable bl wl p p1 Hp). reflexivity.
Qed.

Lemma db_eta (db db' : Db) :
  same_records db db' -> logentries db' = logentries db -> db' = db.
Proof.
  unfold same_records. destruct db, db'; cbn. intros [-> [-> [-> ->]]] ->. reflexivity.
Qed.

(** A scan whose selected rows are all already rewritten with the payload
    their loop body yields changes nothing. *)
Lemma scan_fixed (payload : LogEntry -> exc (option json)) (body : LogEntry -> M unit)
    (event : nat) (sel : LogEntry -> bool) (db : Db) :
  (forall le db, body le db = loop_body payload le db) ->
  NoDup (map le_pk (logentries db)) ->
  (forall r, In r (logentries db) -> (le_event r =? event)%nat && sel r = true ->
             payload r = Ok None \/
             exists d, payload r = Ok (Some d) /\ rewritten r d = r) ->
  (qs <~ query (logentry_set event sel) ;; for_each qs body) db = Ok (tt, db).
Proof.
  intros Hbody Hnd Hset.
  assert (Hok : forall le, In le (logentry_set event sel db) ->
                           exists res, payload le = Ok res).
  { intros le Hle. apply filter_In in Hle. destruct Hle as [Hin Hsel].
    destruct (Hset le Hin Hsel) as [H|[d [H _]]]; eauto. }
  destruct (for_each_completes payload body _ Hbody Hok db) as [db' Hrun].
  change ((qs <~ query (logentry_set event sel) ;; for_each qs body) db = Ok (tt, db'))
    in Hrun.
  destruct (scan_rows_ok payload body event sel db db' Hbody Hnd Hrun)
    as [Hrec [Hrows _]].
  rewrite Hrun. do 2 f_equal. apply db_eta; [exact Hrec|].
  rewrite Hrows. rewrite <- (map_id (logentries db)) at 2.
  apply map_ext_in. intros r Hin. unfold scan_row.
  destruct ((le_event r =? event)%nat && sel r) eqn:Hsel; [|reflexivity].
  destruct (Hset r Hin Hsel) as [H|[d [H Hr]]]; rewrite H; [reflexivity | exact Hr].
Qed.

Lemma shredded_row_keeps (sh : shredder) (event : nat) (r : LogEntry) :
  le_pk (shredded_row sh event r) = le_pk r /\
  le_event (shredded_row sh event r) = le_event r /\
  action_type (shredded_row sh event r) = action_type r.
Proof.
  destruct sh; cbn [shredded_row]; try apply scan_row_keeps.
  set (p1 := primitive_payload (Some ["recipient"; "message"]) None).
  set (p2 := primitive_payload (Some ["old_email"; "new_email"]) None).
  set (p3 := modified_payload EmailAddressShredder).
  destruct (scan_row_keeps event is_order_email p1 r) as [A1 [B1 C1]].
  set (r1 := scan_row event is_order_email p1 r) in *.
  destruct (scan_row_keeps event is_contact_changed p2 r1) as [A2 [B2 C2]].
  set (r2 := scan_row event is_contact_changed p2 r1) in *.
  destruct (scan_row_keeps event is_order_modified p3 r2) as [A3 [B3 C3]].
  repeat split; congruence.
Qed.

Lemma shredded_rows_keys (sh : shredder) (event : nat) (l : list LogEntry) :
  map le_pk (map (shredded_row sh event) l) = map le_pk l.
Proof. rewrite map_map. apply map_ext. intros r. apply shredded_row_keeps. Qed.

(** A row that is no "order modified" entry to scan does not become one. *)
Lemma shredded_row_not_modified (sh : shredder) (event : nat) (r : LogEntry) :
  is_order_modified r = false ->
  is_order_modified (shredded_row sh event r) = false.
Proof.
  intros Hm. destruct (is_order_modified (shredded_row sh event r)) eqn:Hm'; [|reflexivity].
  exfalso. pose proof (is_order_modified_action _ Hm') as Ha.
  destruct (shredded_row_keeps sh event r) as [_ [_ Hact]]. rewrite Hact in Ha.
  assert (Hsame : shredded_row sh event r = r).
  { assert (Hscan : forall pl, scan_row event is_order_modified pl r = r)
      by (intros pl; apply scan_row_not_selected; rewrite Hm; apply andb_false_r).
    destruct sh; cbn [shredded_row]; try apply Hscan.
    rewrite (scan_row_not_selected event is_order_email _ r).
    - rewrite (scan_row_not_selected event is_contact_changed _ r); [apply Hscan|].
      unfold is_contact_changed. rewrite Ha. apply andb_false_r.
    - unfold is_order_email. rewrite Ha. apply andb_false_r. }
  rewrite Hsame in Hm'. congruence.
Qed.

Lemma rewritten_twice (r : LogEntry) (q : json) :
  rewritten (rewritten r q) q = rewritten r q.
Proof. reflexivity. Qed.

(** After [shred_data], the "order modified" scan finds every row it selects
    already rewritten with what its loop body yields. *)
Lemma settled_modified (sh : shredder) (event : nat) (r : LogEntry) :
  ((le_event r =? event)%nat && is_order_modified r = true ->
   exists res, modified_payload sh r = Ok res) ->
  (forall p, le_event r = event -> is_order_modified r = true ->
             data r = TextJson p -> order_modified_shape p = true) ->
  (le_event (shredded_row sh event r) =? event)%nat &&
    is_order_modified (shredded_row sh event r) = true ->
  modified_payload sh (shredded_row sh event r) = Ok None \/
  exists d, modified_payload sh (shredded_row sh event r) = Ok (Some d) /\
            rewritten (shredded_row sh event r) d = shredded_row sh event r.
Proof.
  intros Hok Hshape Hsel. apply andb_true_iff in Hsel. destruct Hsel as [He Hm'].
  destruct (shredded_row_keeps sh event r) as [_ [Hev _]]. rewrite Hev in He.
  destruct (is_order_modified r) eqn:Hm.
  2:{ rewrite (shredded_row_not_modified sh event r Hm) in Hm'. discriminate. }
  rewrite (shredded_row_modified sh event r Hm) in *.
  destruct Hok as [res Hres]; [rewrite He; reflexivity|].
  unfold scan_row. rewrite He, Hm, Hres. cbn [andb].
  destruct res as [q|]; [right | left; exact Hres].
  exists q. split; [|apply rewritten_twice].
  pose proof Hres as Hdata. unfold modified_payload, parsed_data in Hdata.
  destruct (data r) as [| |p] eqn:Hp; try discriminate.
  apply (modified_payload_stable sh r p q Hp); [|exact Hres].
  apply (Hshape p); [apply Nat.eqb_eq, He | reflexivity | reflexivity].
Qed.

Lemma settled_primitive (event : nat) (sel : LogEntry -> bool)
    (bl : option (list string)) (r : LogEntry) :
  ((le_event r =? event)%nat && sel r = true ->
   exists res, primitive_payload bl None r = Ok res) ->
  (le_event (scan_row event sel (primitive_payload bl None) r) =? event)%nat &&
    sel r = true ->
  exists d, primitive_payload bl None (scan_row event sel (primitive_payload bl None) r)
              = Ok (Some d) /\
            rewritten (scan_row event sel (primitive_payload bl None) r) d =
            scan_row event sel (primitive_payload bl None) r.
Proof.
  intros Hok Hsel.
  destruct (scan_row_keeps event sel (primitive_payload bl None) r) as [_ [Hev _]].
  rewrite Hev in Hsel. destruct (Hok Hsel) as [res Hres].
  unfold scan_row. rewrite Hsel, Hres.
  destruct res as [q|]; [|exfalso; eapply primitive_payload_some; eauto].
  exists q. split; [apply primitive_payload_stable, Hres | apply rewritten_twice].
Qed.

Lemma filter_again {A : Type} (p q : A -> bool) (l : list A) :
  (forall a, q a = p a) -> filter q (filter p l) = filter p l.
Proof.
  intros Hpq. induction l as [|a l IH]; [reflexivity|]. cbn [filter].
  destruct (p a) eqn:E; [|exact IH]. cbn [filter]. rewrite Hpq, E, IH. reflexivity.
Qed.

(** The [update] and [delete] statements find nothing left to do on the
    record tables they have produced. *)
Lemma update_records_again (sh : shredder) (event : nat) (db db' : Db) :
  same_records (update_records sh event db) db' ->
  same_records db' (update_records sh event db').
Proof.
  intros [Ho [Hp [Hi Hq]]]. unfold same_records.
  destruct sh; cbn [update_records] in *.
  - cbn [clear_order_emails clear_attendee_emails set_positions
         orders positions invoice_addresses question_answers] in *.
    split; [|split; [|split]]; try reflexivity.
    + rewrite Ho, map_map. apply map_ext. intros o.
      destruct ((o_event o =? event)%nat && is_some (email o)) eqn:E;
        cbn [o_event email is_some].
      * rewrite andb_false_r. reflexivity.
      * rewrite E. reflexivity.
    + assert (Hin : forall pk, order_in_event db' event pk = order_in_event db event pk).
      { intros pk. transitivity (order_in_event (clear_order_emails event db) event pk).
        - apply order_in_event_orders. exact Ho.
        - apply order_in_event_cleared. }
      rewrite Hp, map_map. apply map_ext. intros op.
      destruct (order_in_event db event (op_order op) && is_some (attendee_email op)) eqn:E;
        cbn [op_order attendee_email is_some]; rewrite Hin.
      * rewrite andb_false_r. reflexivity.
      * rewrite E. reflexivity.
  - cbn [clear_attendee_names set_positions
         orders positions invoice_addresses question_answers] in *.
    split; [|split; [|split]]; try reflexivity.
    assert (Hin : forall pk, order_in_event db' event pk = order_in_event db event pk)
      by (intros pk; apply order_in_event_orders, Ho).
    rewrite Hp, map_map. apply map_ext. intros op.
    destruct (order_in_event db event (op_order op) && is_some (attendee_name op)) eqn:E;
      cbn [op_order attendee_name is_some]; rewrite Hin.
    + rewrite andb_false_r. reflexivity.
    + rewrite E. reflexivity.
  - cbn [delete_invoice_addresses
         orders positions invoice_addresses question_answers] in *.
    split; [|split; [|split]]; try reflexivity.
    rewrite Hi. apply filter_again. intros ia.
    rewrite (order_in_event_orders db db' _ _ Ho). reflexivity.
  - cbn [delete_question_answers
         orders positions invoice_addresses question_answers] in *.
    split; [|split; [|split]]; try reflexivity.
    rewrite Hq. apply filter_again. intros a.
    rewrite (position_in_event_tables db db' _ _ Ho Hp). reflexivity.
Qed.

(** Running a shredder a second time changes nothing: when primary keys are
    unique and the "order modified" payloads of the event have the expected
    shape, [shred_data] on the database a completed [shred_data] has produced
    completes and returns that database, records and log entries alike. *)
Theorem shred_data_again (sh : shredder) (event : nat) (db db' : Db) :
  NoDup (map le_pk (logentries db)) ->
  well_shaped_log event db ->
  shred_data sh event db = Ok (tt, db') ->
  shred_data sh event db' = Ok (tt, db').
Proof.
  intros Hnd Hshape Hrun.
  destruct (shred_data_rows sh event db db' Hnd Hrun) as [Hrec [Hrows [Hokm Hokp]]].
  rewrite shred_data_halves.
  assert (Hupd : update_records sh event db' = db').
  { apply db_eta; [apply (update_records_again sh event db db' Hrec)|].
    apply logentries_update_records. }
  rewrite Hupd.
  assert (Hnd' : NoDup (map le_pk (logentries db')))
    by (rewrite Hrows, shredded_rows_keys; exact Hnd).
  assert (Hmod : shred_order_modified sh event db' = Ok (tt, db')).
  { apply (scan_fixed (modified_payload sh) _ event is_order_modified db'
             (order_modified_body sh) Hnd').
    intros r' Hin'. rewrite Hrows in Hin'. apply in_map_iff in Hin'.
    destruct Hin' as [r [<- Hin]]. apply settled_modified.
    - apply (Hokm r Hin).
    - intros p He Hm Hdata. apply (Hshape r p Hin He Hm Hdata). }
  destruct sh; cbn [scan_logentries]; try exact Hmod.
  specialize (Hokp eq_refl).
  assert (H1 : (qs <~ query (logentry_set event is_order_email) ;;
                for_each qs (fun le =>
                  shred_log_fields le (Some ["recipient"; "message"]) None)) db'
               = Ok (tt, db')).
  { apply (scan_fixed _ _ event is_order_email db'
             (shred_log_fields_body (Some ["recipient"; "message"]) None) Hnd').
    intros r' Hin' Hsel. right. rewrite Hrows in Hin'. apply in_map_iff in Hin'.
    destruct Hin' as [r [<- Hin]].
    destruct (shredded_row_keeps EmailAddressShredder event r) as [_ [Hev Hact]].
    rewrite (is_order_email_action r _ Hact) in Hsel.
    pose proof Hsel as Hsel'. apply andb_true_iff in Hsel'. destruct Hsel' as [He Hk].
    rewrite Hev in He.
    rewrite (shredded_row_order_email event r Hk).
    apply settled_primitive.
    - intros _. apply (proj1 (Hokp r Hin He) Hk).
    - destruct (scan_row_keeps event is_order_email
                  (primitive_payload (Some ["recipient"; "message"]) None) r)
        as [_ [Hev1 _]].
      rewrite Hev1, He, Hk. reflexivity. }
  assert (H2 : (qs <~ query (logentry_set event is_contact_changed) ;;
                for_each qs (fun le =>
                  shred_log_fields le (Some ["old_email"; "new_email"]) None)) db'
               = Ok (tt, db')).
  { apply (scan_fixed _ _ event is_contact_changed db'
             (shred_log_fields_body (Some ["old_email"; "new_email"]) None) Hnd').
    intros r' Hin' Hsel. right. rewrite Hrows in Hin'. apply in_map_iff in Hin'.
    destruct Hin' as [r [<- Hin]].
    destruct (shredded_row_keeps EmailAddressShredder event r) as [_ [Hev Hact]].
    rewrite (is_contact_changed_action r _ Hact) in Hsel.
    pose proof Hsel as Hsel'. apply andb_true_iff in Hsel'. destruct Hsel' as [He Hk].
    rewrite Hev in He.
    rewrite (shredded_row_contact_changed event r Hk).
    apply settled_primitive.
    - intros _. apply (proj2 (Hokp r Hin He) Hk).
    - destruct (scan_row_keeps event is_contact_changed
                  (primitive_payload (Some ["old_email"; "new_email"]) None) r)
        as [_ [Hev1 _]].
      rewrite Hev1, He, Hk. reflexivity. }
  unfold bindM at 1. rewrite H1. unfold bindM at 1. rewrite H2. exact Hmod.
Qed.

Lemma shop_well_shaped : well_shaped_log 7 shop.
Proof.
  intros r p [<-|[<-|[<-|[]]]] _ Hm Hdata; try discriminate;
    inversion Hdata; reflexivity.
Qed.

Lemma shred_data_again_witness :
  exists db',
    shred_data QuestionAnswerShredder 7 shop = Ok (tt, db') /\
    shred_data QuestionAnswerShredder 7 db' = Ok (tt, db').
Proof.
  eexists. split; [vm_compute; reflexivity|].
  apply (shred_data_again QuestionAnswerShredder 7 shop).
  - exact shop_keys.
  - exact shop_well_shaped.
  - vm_compute. reflexivity.
Defined.

(** ** What [shred_data] keeps *)

(** The record tables after the updates, and the log table row by row,
    whatever the primary keys. *)
Lemma shred_data_tables (sh : shredder) (event : nat) (db db' : Db) :
  shred_data sh event db = Ok (tt, db') ->
  same_records (update_records sh event db) db' /\
  Forall2 evolves (logentries db) (logentries db').
Proof.
  intros Hrun. rewrite shred_data_halves in Hrun.
  rewrite <- (logentries_update_records sh event db).
  set (db0 := update_records sh event db) in *. clearbody db0.
  assert (Hone : shred_order_modified sh event db0 = Ok (tt, db') ->
                 same_records db0 db' /\ Forall2 evolves (logentries db0) (logentries db')).
  { intros H. apply modified_scan in H. destruct H as [Hrec Hrows].
    split; [exact Hrec|]. eapply Forall2_In_impl; [exact Hrows|].
    intros r r' _ [Hev _]. exact Hev. }
  destruct sh; cbn [scan_logentries] in Hrun; try (apply Hone, Hrun).
  clear Hone.
  apply bindM_inv in Hrun. destruct Hrun as [[] [db1 [H1 Hrun]]].
  apply bindM_inv in Hrun. destruct Hrun as [[] [db2 [H2 H3]]].
  apply primitive_scan in H1. destruct H1 as [Hrec1 Hrows1].
  apply primitive_scan in H2. destruct H2 as [Hrec2 Hrows2].
  apply modified_scan in H3. destruct H3 as [Hrec3 Hrows3].
  split; [eauto using same_records_trans|].
  eapply Forall2_compose; [|exact Hrows3|].
  - eapply Forall2_compose; [exact Hrows1 | exact Hrows2 |].
    intros a b c [Hab _] [Hbc _]. exact (evolves_trans a b c Hab Hbc).
  - cbv beta. intros a b c Hab [Hbc _]. exact (evolves_trans a b c Hab Hbc).
Qed.

(** Whenever [shred_data] completes, the log table has the same rows in the
    same order: every row keeps its primary key, its event and its action
    type; a flag that was set stays set; and a row that is not flagged
    afterwards is exactly as it was, so the text of an entry never changes
    without the entry being flagged. *)
Theorem shred_data_log_table (sh : shredder) (event : nat) (db db' : Db) :
  shred_data sh event db = Ok (tt, db') ->
  Forall2 (fun r r' =>
             le_pk r' = le_pk r /\ le_event r' = le_event r /\
             action_type r' = action_type r /\
             (shredded r = true -> shredded r' = true) /\
             (shredded r' = false -> r' = r))
          (logentries db) (logentries db').
Proof.
  intros Hrun. destruct (shred_data_tables sh event db db' Hrun) as [_ Hrows].
  eapply Forall2_In_impl; [exact Hrows|]. cbv beta.
  intros r r' _ Hev. pose proof (evolves_flagged r r' Hev) as Hflag.
  destruct Hev as [Hp [He [Ha Hs]]]. repeat split; try assumption.
  intros Hf. destruct Hs as [Hs|Hs]; [congruence | exact Hs].
Qed.

Lemma shred_data_log_table_witness :
  exists db',
    shred_data InvoiceAddressShredder 7 shop = Ok (tt, db') /\
    Forall2 (fun r r' =>
               le_pk r' = le_pk r /\ le_event r' = le_event r /\
               action_type r' = action_type r /\
               (shredded r = true -> shredded r' = true) /\
               (shredded r' = false -> r' = r))
            (logentries shop) (logentries db').
Proof.
  eexists. split; [vm_compute; reflexivity|].
  apply (shred_data_log_table InvoiceAddressShredder 7 shop). vm_compute. reflexivity.
Defined.

(** Whenever [shred_data] completes, no order and no position has been added
    or removed; orders keep key, event and code, positions keep key, order
    and position number; only the e-mail shredder changes e-mail columns and
    only the attendee name shredder changes names; the orders of other
    events and the positions of their orders are exactly as before; an
    invoice address or an answer is in its table afterwards exactly when it
    was there before and the shredder is not the one that deletes it for
    this event. *)
Theorem shred_data_record_frame (sh : shredder) (event : nat) (db db' : Db) :
  shred_data sh event db = Ok (tt, db') ->
  Forall2 (fun o o' =>
             o_pk o' = o_pk o /\ o_event o' = o_event o /\ code o' = code o /\
             (sh <> EmailAddressShredder \/ o_event o <> event -> o' = o))
          (orders db) (orders db') /\
  Forall2 (fun op op' =>
             op_pk op' = op_pk op /\ op_order op' = op_order op /\
             positionid op' = positionid op /\
             (sh <> EmailAddressShredder -> attendee_email op' = attendee_email op) /\
             (sh <> AttendeeNameShredder -> attendee_name op' = attendee_name op) /\
             (order_in_event db event (op_order op) = false -> op' = op))
          (positions db) (positions db') /\
  (forall ia, In ia (invoice_addresses db') <->
              In ia (invoice_addresses db) /\
              (sh = InvoiceAddressShredder ->
               order_in_event db event (ia_order ia) = false)) /\
  (forall a, In a (question_answers db') <->
             In a (question_answers db) /\
             (sh = QuestionAnswerShredder ->
              position_in_event db event (qa_orderposition a) = false)).
Proof.
  intros Hrun. destruct (shred_data_tables sh event db db' Hrun) as [[Ho [Hp [Hi Hq]]] _].
  rewrite Ho, Hp, Hi, Hq. clear Ho Hp Hi Hq Hrun db'.
  assert (Hsame_o : Forall2 (fun o o' : Order =>
            o_pk o' = o_pk o /\ o_event o' = o_event o /\ code o' = code o /\
            (sh <> EmailAddressShredder \/ o_event o <> event -> o' = o))
            (orders db) (orders db))
    by (apply Forall2_refl_on; intros o; repeat split; reflexivity).
  assert (Hsame_p : forall P : OrderPosition -> OrderPosition -> Prop,
            (forall op, P op op) -> Forall2 P (positions db) (positions db))
    by (intros P HP; apply Forall2_refl_on, HP).
  destruct sh; cbn [update_records].
  - cbn [clear_order_emails clear_attendee_emails set_positions
         orders positions invoice_addresses question_answers].
    split; [|split; [|split]].
    + apply Forall2_map_self. intros o _.
      destruct (Nat.eqb_spec (o_event o) event) as [E|E]; destruct (email o);
        cbn [andb is_some o_pk o_event code]; repeat split; try reflexivity;
        intros [H|H]; congruence.
    + apply Forall2_map_self. intros op _.
      destruct (order_in_event db event (op_order op)); destruct (attendee_email op);
        cbn [andb is_some op_pk op_order positionid attendee_email attendee_name];
        repeat split; try reflexivity; congruence.
    + intros ia. split; [intros H; split; [exact H | discriminate] | intros [H _]; exact H].
    + intros a. split; [intros H; split; [exact H | discriminate] | intros [H _]; exact H].
  - cbn [clear_attendee_names set_positions
         orders positions invoice_addresses question_answers].
    split; [exact Hsame_o|]. split; [|split].
    + apply Forall2_map_self. intros op _.
      destruct (order_in_event db event (op_order op)); destruct (attendee_name op);
        cbn [andb is_some op_pk op_order positionid attendee_email attendee_name];
        repeat split; try reflexivity; congruence.
    + intros ia. split; [intros H; split; [exact H | discriminate] | intros [H _]; exact H].
    + intros a. split; [intros H; split; [exact H | discriminate] | intros [H _]; exact H].
  - cbn [delete_invoice_addresses orders positions invoice_addresses question_answers].
    split; [exact Hsame_o|]. split; [|split].
    + apply Hsame_p. intros op. repeat split; reflexivity.
    + intros ia. rewrite filter_In, negb_true_iff. split.
      * intros [H1 H2]. split; [exact H1 | intros _; exact H2].
      * intros [H1 H2]. split; [exact H1 | apply H2; reflexivity].
    + intros a. split; [intros H; split; [exact H | discriminate] | intros [H _]; exact H].
  - cbn [delete_question_answers orders positions invoice_addresses question_answers].
    split; [exact Hsame_o|]. split; [|split].
    + apply Hsame_p. intros op. repeat split; reflexivity.
    + intros ia. split; [intros H; split; [exact H | discriminate] | intros [H _]; exact H].
    + intros a. rewrite filter_In, negb_true_iff. split.
      * intros [H1 H2]. split; [exact H1 | intros _; exact H2].
      * intros [H1 H2]. split; [exact H1 | apply H2; reflexivity].
Qed.

Lemma shred_data_record_frame_witness :
  exists db',
    shred_data EmailAddressShredder 7 shop = Ok (tt, db') /\
    Forall2 (fun o o' =>
               o_pk o' = o_pk o /\ o_event o' = o_event o /\ code o' = code o /\
               (EmailAddressShredder <> EmailAddressShredder \/ o_event o <> 7%nat ->
                o' = o))
            (orders shop) (orders db').
Proof.
  eexists. split; [vm_compute; reflexivity|].
  apply (shred_data_record_frame EmailAddressShredder 7 shop). vm_compute. reflexivity.
Defined.

(** ** Dict comprehensions *)

Lemma dict_get_app (k : string) (d d' : dict) :
  dict_get k (d ++ d')%list =
  match dict_get k d with Some v => Some v | None => dict_get k d' end.
Proof.
  induction d as [|[k0 v0] d IH]; [reflexivity|]. cbn [app dict_get].
  destruct (k0 =? k); [reflexivity | exact IH].
Qed.

Lemma dict_get_set_same (k : string) (v : json) (d : dict) :
  dict_get k (dict_set k v d) = Some v.
Proof.
  unfold dict_set. destruct (dict_has k d) eqn:Hhas.
  - rewrite dict_get_update_same, Hhas. reflexivity.
  - rewrite dict_get_app. rewrite dict_has_get in Hhas.
    destruct (dict_get k d); [discriminate|]. cbn. rewrite String.eqb_refl. reflexivity.
Qed.

Lemma dict_get_set_other (k' k : string) (v : json) (d : dict) :
  k' <> k -> dict_get k' (dict_set k v d) = dict_get k' d.
Proof.
  intros Hne. unfold dict_set. destruct (dict_has k d).
  - apply dict_get_update_other, Hne.
  - rewrite dict_get_app. destruct (dict_get k' d); [reflexivity|]. cbn.
    destruct (String.eqb_spec k k'); [congruence | reflexivity].
Qed.

(** Looking a key up in a comprehension gives the value of the last item
    with that key. *)
Lemma comprehension_from (k : string) (items : list (string * json)) (acc : dict) :
  dict_get k (fold_left (fun d kv => dict_set (fst kv) (snd kv) d) items acc) =
  match dict_get k (rev items) with
  | Some v => Some v
  | None => dict_get k acc
  end.
Proof.
  revert acc. induction items as [|[k0 v0] items IH]; intros acc; [reflexivity|].
  cbn [fold_left rev fst snd]. rewrite IH, dict_get_app. cbn [dict_get].
  destruct (dict_get k (rev items)); [reflexivity|].
  destruct (String.eqb_spec k0 k) as [->|Hne].
  - apply dict_get_set_same.
  - apply dict_get_set_other. congruence.
Qed.

Lemma dict_get_comprehension (k : string) (items : list (string * json)) :
  dict_get k (dict_comprehension items) = dict_get k (rev items).
Proof.
  unfold dict_comprehension. rewrite comprehension_from.
  destruct (dict_get k (rev items)); reflexivity.
Qed.

Lemma dict_get_some_In (k : string) (v : json) (d : dict) :
  dict_get k d = Some v -> In (k, v) d.
Proof.
  induction d as [|[k0 v0] d IH]; cbn [dict_get]; [discriminate|].
  destruct (String.eqb_spec k0 k) as [->|Hne].
  - intros H. inversion H. left. reflexivity.
  - intros H. right. apply IH, H.
Qed.

Lemma dict_get_agreeing (k : string) (v : json) (d : dict) :
  In (k, v) d -> (forall v', In (k, v') d -> v' = v) -> dict_get k d = Some v.
Proof.
  induction d as [|[k0 v0] d IH]; cbn [dict_get]; intros Hin Hall; [contradiction|].
  destruct (String.eqb_spec k0 k) as [->|Hne].
  - f_equal. apply Hall. left. reflexivity.
  - destruct Hin as [E|Hin]; [inversion E; congruence|].
    apply IH; [exact Hin|]. intros v' Hv'. apply Hall. right. exact Hv'.
Qed.

(** A comprehension over records holds the value of every record whose key
    no record with another value shares. *)
Lemma comprehension_complete {A : Type} (key : A -> string) (val : A -> json)
    (l : list A) (a : A) :
  In a l ->
  (forall b, In b l -> key b = key a -> val b = val a) ->
  dict_get (key a) (dict_comprehension (map (fun x => (key x, val x)) l)) = Some (val a).
Proof.
  intros Hin Hall. rewrite dict_get_comprehension. apply dict_get_agreeing.
  - apply in_rev. rewrite rev_involutive. apply in_map_iff. exists a. auto.
  - intros v' Hv'. apply in_rev in Hv'. apply in_map_iff in Hv'.
    destruct Hv' as [b [Hb Hbin]]. inversion Hb. subst v'. apply Hall; assumption.
Qed.

(** A comprehension over records holds nothing but values of these records. *)
Lemma comprehension_sound {A : Type} (key : A -> string) (val : A -> json)
    (l : list A) (k : string) (v : json) :
  dict_get k (dict_comprehension (map (fun x => (key x, val x)) l)) = Some v ->
  exists a, In a l /\ key a = k /\ val a = v.
Proof.
  rewrite dict_get_comprehension. intros H. apply dict_get_some_In in H.
  apply in_rev in H. apply in_map_iff in H. destruct H as [a [Ha Hin]].
  inversion Ha. eauto.
Qed.

Lemma positions_of_event_In (event : nat) (db : Db) (op : OrderPosition) (o : Order) :
  In (op, o) (positions_of_event event db) <->
  In op (positions db) /\ order_of db (op_order op) = Some o /\ o_event o = event.
Proof.
  unfold positions_of_event. rewrite in_flat_map. split.
  - intros [op0 [Hin H]]. destruct (order_of db (op_order op0)) as [o0|] eqn:Ho; [|contradiction].
    destruct (Nat.eqb_spec (o_event o0) event) as [E|E]; [|contradiction].
    destruct H as [H|[]]. inversion H; subst. auto.
  - intros [Hin [Ho E]]. exists op. split; [exact Hin|]. rewrite Ho.
    apply Nat.eqb_eq in E. rewrite E. left. reflexivity.
Qed.

Lemma invoice_addresses_of_event_In (event : nat) (db : Db)
    (ia : InvoiceAddress) (o : Order) :
  In (ia, o) (invoice_addresses_of_event event db) <->
  In ia (invoice_addresses db) /\ order_of db (ia_order ia) = Some o /\ o_event o = event.
Proof.
  unfold invoice_addresses_of_event. rewrite in_flat_map. split.
  - intros [ia0 [Hin H]]. destruct (order_of db (ia_order ia0)) as [o0|] eqn:Ho; [|contradiction].
    destruct (Nat.eqb_spec (o_event o0) event) as [E|E]; [|contradiction].
    destruct H as [H|[]]. inversion H; subst. auto.
  - intros [Hin [Ho E]]. exists ia. split; [exact Hin|]. rewrite Ho.
    apply Nat.eqb_eq in E. rewrite E. left. reflexivity.
Qed.

(** ** What the export contains *)

(** The export of one nullable column of the positions, keyed by order code
    and position number. *)
Lemma position_column_export (col : OrderPosition -> option string)
    (event : nat) (db : Db) :
  let content :=
    dict_comprehension
      (map (fun p => (position_key (snd p) (fst p), json_of_column (col (fst p))))
           (filter (fun p => is_some (col (fst p))) (positions_of_event event db))) in
  (forall op o e,
     In op (positions db) -> order_of db (op_order op) = Some o -> o_event o = event ->
     col op = Some e ->
     (forall op' o', In op' (positions db) -> order_of db (op_order op') = Some o' ->
                     o_event o' = event ->
                     position_key o' op' = position_key o op -> op' = op) ->
     dict_get (position_key o op) content = Some (JStr e)) /\
  (forall k v,
     dict_get k content = Some v ->
     exists op o e,
       In op (positions db) /\ order_of db (op_order op) = Some o /\ o_event o = event /\
       position_key o op = k /\ col op = Some e /\ v = JStr e).
Proof.
  cbv zeta. split.
  - intros op o e Hin Ho He Hcol Huniq.
    replace (JStr e) with (json_of_column (col (fst (op, o))))
      by (cbn [fst]; rewrite Hcol; reflexivity).
    apply (comprehension_complete
             (fun p : OrderPosition * Order => position_key (snd p) (fst p))
             (fun p => json_of_column (col (fst p))) _ (op, o)).
    + apply filter_In. split; [apply positions_of_event_In; auto|].
      cbn [fst]. rewrite Hcol. reflexivity.
    + intros [op' o'] Hin' Hkey. cbn [fst snd] in *.
      apply filter_In in Hin'. destruct Hin' as [Hin' _].
      apply positions_of_event_In in Hin'. destruct Hin' as [Hin' [Ho' He']].
      rewrite (Huniq op' o' Hin' Ho' He' Hkey). reflexivity.
  - intros k v H.
    apply (comprehension_sound
             (fun p : OrderPosition * Order => position_key (snd p) (fst p))
             (fun p => json_of_column (col (fst p)))) in H.
    destruct H as [[op o] [Hin [Hkey Hval]]]. cbn [fst snd] in *.
    apply filter_In in Hin. destruct Hin as [Hin Hsome].
    apply positions_of_event_In in Hin. destruct Hin as [Hin [Ho He]].
    cbn [fst] in Hsome. destruct (col op) as [e|] eqn:Hcol; [|discriminate].
    exists op, o, e. repeat split; auto.
Qed.

Section ExportContents.

Variable InvoiceAdddressSerializer : InvoiceAddress -> json.
Variable AnswerSerializer : list QuestionAnswer -> json.

(** The e-mail shredder exports two mappings.  The first holds, under its
    code, the address of every order of the event that has one, provided no
    other order of the event has the same code; the second holds, under order
    code and position number, the attendee address of every position of the
    event that has one, provided that key is not shared.  Neither holds
    anything else: every entry is the address of an order, or of a position
    of an order, of this event. *)
Theorem email_export_contents (event : nat) (db : Db) :
  exists by_order by_attendee,
    generate_files InvoiceAdddressSerializer AnswerSerializer
      EmailAddressShredder event db =
      Ok ([("emails-by-order.json", "application/json", JDict by_order);
           ("emails-by-attendee.json", "application/json", JDict by_attendee)], db) /\
    (forall o e,
       In o (orders db) -> o_event o = event -> email o = Some e ->
       (forall o', In o' (orders db) -> o_event o' = event -> code o' = code o -> o' = o) ->
       dict_get (code o) by_order = Some (JStr e)) /\
    (forall k v,
       dict_get k by_order = Some v ->
       exists o e, In o (orders db) /\ o_event o = event /\ code o = k /\
                   email o = Some e /\ v = JStr e) /\
    (forall op o e,
       In op (positions db) -> order_of db (op_order op) = Some o -> o_event o = event ->
       attendee_email op = Some e ->
       (forall op' o', In op' (positions db) -> order_of db (op_order op') = Some o' ->
                       o_event o' = event ->
                       position_key o' op' = position_key o op -> op' = op) ->
       dict_get (position_key o op) by_attendee = Some (JStr e)) /\
    (forall k v,
       dict_get k by_attendee = Some v ->
       exists op o e,
         In op (positions db) /\ order_of db (op_order op) = Some o /\ o_event o = event /\
         position_key o op = k /\ attendee_email op = Some e /\ v = JStr e).
Proof.
  eexists. eexists. split; [reflexivity|].
  split; [|split; [|apply (position_column_export attendee_email event db)]].
  - intros o e Hin He Hmail Huniq.
    replace (JStr e) with (json_of_column (email o)) by (rewrite Hmail; reflexivity).
    apply (comprehension_complete code (fun o => json_of_column (email o))).
    + apply filter_In. split; [exact Hin|].
      apply Nat.eqb_eq in He. rewrite He, Hmail. reflexivity.
    + intros o' Hin' Hcode. apply filter_In in Hin'. destruct Hin' as [Hin' Hsel].
      apply andb_true_iff in Hsel. destruct Hsel as [He' _]. apply Nat.eqb_eq in He'.
      rewrite (Huniq o' Hin' He' Hcode). reflexivity.
  - intros k v H.
    apply (comprehension_sound code (fun o => json_of_column (email o))) in H.
    destruct H as [o [Hin [Hcode Hval]]]. apply filter_In in Hin.
    destruct Hin as [Hin Hsel]. apply andb_true_iff in Hsel. destruct Hsel as [He Hsome].
    apply Nat.eqb_eq in He. destruct (email o) as [e|] eqn:Hmail; [|discriminate].
    exists o, e. repeat split; auto.
Qed.

(** The attendee name shredder exports one mapping that holds, under order
    code and position number, the name of every position of the event that
    has one, provided that key is not shared, and nothing but names of
    positions of this event. *)
Theorem attendee_name_export_contents (event : nat) (db : Db) :
  exists by_attendee,
    generate_files InvoiceAdddressSerializer AnswerSerializer
      AttendeeNameShredder event db =
      Ok ([("attendee-names.json", "application/json", JDict by_attendee)], db) /\
    (forall op o e,
       In op (positions db) -> order_of db (op_order op) = Some o -> o_event o = event ->
       attendee_name op = Some e ->
       (forall op' o', In op' (positions db) -> order_of db (op_order op') = Some o' ->
                       o_event o' = event ->
                       position_key o' op' = position_key o op -> op' = op) ->
       dict_get (position_key o op) by_attendee = Some (JStr e)) /\
    (forall k v,
       dict_get k by_attendee = Some v ->
       exists op o e,
         In op (positions db) /\ order_of db (op_order op) = Some o /\ o_event o = event /\
         position_key o op = k /\ attendee_name op = Some e /\ v = JStr e).
Proof.
  eexists. split; [reflexivity|]. apply (position_column_export attendee_name event db).
Qed.

(** The invoice address shredder exports one mapping that holds, under the
    order's code, the serialized address of every invoice address of an order
    of the event, provided no other invoice address of the event goes under
    the same code, and nothing but serialized addresses of this event. *)
Theorem invoice_address_export_contents (event : nat) (db : Db) :
  exists by_order,
    generate_files InvoiceAdddressSerializer AnswerSerializer
      InvoiceAddressShredder event db =
      Ok ([("invoice-addresses.json", "application/json", JDict by_order)], db) /\
    (forall ia o,
       In ia (invoice_addresses db) -> order_of db (ia_order ia) = Some o ->
       o_event o = event ->
       (forall ia' o', In ia' (invoice_addresses db) ->
                       order_of db (ia_order ia') = Some o' -> o_event o' = event ->
                       code o' = code o -> ia' = ia) ->
       dict_get (code o) by_order = Some (InvoiceAdddressSerializer ia)) /\
    (forall k v,
       dict_get k by_order = Some v ->
       exists ia o,
         In ia (invoice_addresses db) /\ order_of db (ia_order ia) = Some o /\
         o_event o = event /\ code o = k /\ v = InvoiceAdddressSerializer ia).
Proof.
  eexists. split; [reflexivity|]. split.
  - intros ia o Hin Ho He Huniq.
    apply (comprehension_complete
             (fun p : InvoiceAddress * Order => code (snd p))
             (fun p => InvoiceAdddressSerializer (fst p)) _ (ia, o)).
    + apply invoice_addresses_of_event_In. auto.
    + intros [ia' o'] Hin' Hcode. cbn [fst snd] in *.
      apply invoice_addresses_of_event_In in Hin'. destruct Hin' as [Hin' [Ho' He']].
      rewrite (Huniq ia' o' Hin' Ho' He' Hcode). reflexivity.
  - intros k v H.
    apply (comprehension_sound
             (fun p : InvoiceAddress * Order => code (snd p))
             (fun p => InvoiceAdddressSerializer (fst p))) in H.
    destruct H as [[ia o] [Hin [Hcode Hval]]]. cbn [fst snd] in *.
    apply invoice_addresses_of_event_In in Hin. destruct Hin as [Hin [Ho He]].
    exists ia, o. repeat split; auto.
Qed.

(** The question answer shredder exports one mapping that holds, under order
    code and position number, the serialized list of the answers given for
    every position of the event (also for a position without answers),
    provided that key is not shared, and nothing but such lists for
    positions of this event. *)
Theorem question_answer_export_contents (event : nat) (db : Db) :
  exists by_attendee,
    generate_files InvoiceAdddressSerializer AnswerSerializer
      QuestionAnswerShredder event db =
      Ok ([("question-answers.json", "application/json", JDict by_attendee)], db) /\
    (forall op o,
       In op (positions db) -> order_of db (op_order op) = Some o -> o_event o = event ->
       (forall op' o', In op' (positions db) -> order_of db (op_order op') = Some o' ->
                       o_event o' = event ->
                       position_key o' op' = position_key o op -> op' = op) ->
       dict_get (position_key o op) by_attendee =
         Some (AnswerSerializer (answers_of db op))) /\
    (forall k v,
       dict_get k by_attendee = Some v ->
       exists op o,
         In op (positions db) /\ order_of db (op_order op) = Some o /\ o_event o = event /\
         position_key o op = k /\ v = AnswerSerializer (answers_of db op)).
Proof.
  exists (dict_comprehension
            (map (fun p : OrderPosition * Order =>
                    (position_key (snd p) (fst p), AnswerSerializer (answers_of db (fst p))))
                 (positions_of_event event db))).
  split.
  { cbn [generate_files]. unfold bindM, query, ret. rewrite map_map. reflexivity. }
  split.
  - intros op o Hin Ho He Huniq.
    apply (comprehension_complete
             (fun p : OrderPosition * Order => position_key (snd p) (fst p))
             (fun p => AnswerSerializer (answers_of db (fst p))) _ (op, o)).
    + apply positions_of_event_In. auto.
    + intros [op' o'] Hin' Hkey. cbn [fst snd] in *.
      apply positions_of_event_In in Hin'. destruct Hin' as [Hin' [Ho' He']].
      rewrite (Huniq op' o' Hin' Ho' He' Hkey). reflexivity.
  - intros k v H.
    apply (comprehension_sound
             (fun p : OrderPosition * Order => position_key (snd p) (fst p))
             (fun p => AnswerSerializer (answers_of db (fst p)))) in H.
    destruct H as [[op o] [Hin [Hkey Hval]]]. cbn [fst snd] in *.
    apply positions_of_event_In in Hin. destruct Hin as [Hin [Ho He]].
    exists op, o. repeat split; auto.
Qed.

End ExportContents.

(** ** The export after shredding *)

Lemma filter_none {A : Type} (p : A -> bool) (l : list A) :
  (forall x, In x l -> p x = false) -> filter p l = [].
Proof.
  induction l as [|a l IH]; intros H; [reflexivity|]. cbn [filter].
  rewrite (H a (or_introl eq_refl)). apply IH. intros x Hx. apply H. right. exact Hx.
Qed.

Lemma flat_map_none {A B : Type} (f : A -> list B) (l : list A) :
  (forall x, In x l -> f x = []) -> flat_map f l = [].
Proof.
  induction l as [|a l IH]; intros H; [reflexivity|]. cbn [flat_map].
  rewrite (H a (or_introl eq_refl)). apply IH. intros x Hx. apply H. right. exact Hx.
Qed.


Lemma shred_data_records (sh : shredder) (event : nat) (db db' : Db) :
  shred_data sh event db = Ok (tt, db') -> records_shredded sh event db'.
Proof.
  intros Hrun. destruct (shred_data_tables sh event db db' Hrun) as [Hrec _].
  apply (records_after_shred sh event db (update_records sh event db) db');
    [destruct sh; reflexivity | exact Hrec].
Qed.

Section ExportAfterShredding.

Variable InvoiceAdddressSerializer : InvoiceAddress -> json.
Variable AnswerSerializer : list QuestionAnswer -> json.

(** Once [shred_data] of the e-mail, attendee name or invoice address
    shredder has completed, the same shredder's [generate_files] has nothing
    left to export for the event: every file it yields is the empty
    mapping. *)
Theorem export_after_shredding (sh : shredder) (event : nat) (db db' : Db) :
  sh <> QuestionAnswerShredder ->
  shred_data sh event db = Ok (tt, db') ->
  exists files,
    generate_files InvoiceAdddressSerializer AnswerSerializer sh event db' =
      Ok (files, db') /\
    Forall (fun f => snd f = JDict []) files.
Proof.
  intros Hsh Hrun. pose proof (shred_data_records sh event db db' Hrun) as Hrec.
  assert (Hpos : forall col : OrderPosition -> option string,
            (forall op, In op (positions db') ->
                        order_in_event db' event (op_order op) = true -> col op = None) ->
            filter (fun p : OrderPosition * Order => is_some (col (fst p)))
                   (positions_of_event event db') = []).
  { intros col Hcol. apply filter_none. intros [op o] Hin. cbn [fst].
    apply positions_of_event_In in Hin. destruct Hin as [Hin [Ho He]].
    rewrite (Hcol op Hin); [reflexivity|].
    unfold order_in_event. rewrite Ho. apply Nat.eqb_eq, He. }
  destruct sh; try congruence; cbn [records_shredded] in Hrec;
    cbn [generate_files]; unfold bindM, query, ret.
  - destruct Hrec as [Horders Hpositions].
    rewrite (Hpos attendee_email Hpositions).
    assert (Ho : orders_with_email event db' = []).
    { apply filter_none. intros o Hin.
      destruct (Nat.eqb_spec (o_event o) event) as [E|E]; [|reflexivity].
      rewrite (Horders o Hin E). reflexivity. }
    rewrite Ho. eexists. split; [reflexivity|]. repeat constructor.
  - rewrite (Hpos attendee_name Hrec).
    eexists. split; [reflexivity|]. repeat constructor.
  - assert (Hi : invoice_addresses_of_event event db' = []).
    { apply flat_map_none. intros ia Hin. specialize (Hrec ia Hin).
      unfold order_in_event in Hrec.
      destruct (order_of db' (ia_order ia)); [rewrite Hrec|]; reflexivity. }
    rewrite Hi. eexists. split; [reflexivity|]. repeat constructor.
Qed.


End ExportAfterShredding.

(** ** Scenarios on the small database *)


Lemma export_after_shredding_witness :
  exists db' files,
    shred_data EmailAddressShredder 7 shop = Ok (tt, db') /\
    generate_files ia_columns (fun l => JList (map qa_columns l))
      EmailAddressShredder 7 db' = Ok (files, db') /\
    Forall (fun f => snd f = JDict []) files.
Proof.
  eexists.
  destruct (export_after_shredding ia_columns (fun l => JList (map qa_columns l))
              EmailAddressShredder 7 shop _ ltac:(discriminate)
              ltac:(vm_compute; reflexivity)) as [files [Hrun Hfiles]].
  exists files. split; [reflexivity|]. split; [exact Hrun | exact Hfiles].
Defined.


Lemma email_export_contents_witness :
  exists by_order by_attendee,
    generate_files ia_columns (fun l => JList (map qa_columns l))
      EmailAddressShredder 7 shop =
      Ok ([("emails-by-order.json", "application/json", JDict by_order);
           ("emails-by-attendee.json", "application/json", JDict by_attendee)], shop) /\
    dict_get "ABC12" by_order = Some (JStr "j@x.com").
Proof.
  destruct (email_export_contents ia_columns (fun l => JList (map qa_columns l)) 7 shop)
    as [by_order [by_attendee [Hrun [Hcomplete _]]]].
  exists by_order, by_attendee. split; [exact Hrun|].
  apply (Hcomplete (mkOrder 10 7 "ABC12" (Some "j@x.com")) "j@x.com");
    [simpl; auto | reflexivity | reflexivity |].
  intros o' [<-|[<-|[]]] He Hc; [reflexivity | discriminate].
Defined.

Lemma attendee_name_export_contents_witness :
  exists by_attendee,
    generate_files ia_columns (fun l => JList (map qa_columns l))
      AttendeeNameShredder 7 shop =
      Ok ([("attendee-names.json", "application/json", JDict by_attendee)], shop) /\
    dict_get "ABC12-1" by_attendee = Some (JStr "Jane Doe").
Proof.
  destruct (attendee_name_export_contents ia_columns
              (fun l => JList (map qa_columns l)) 7 shop)
    as [by_attendee [Hrun [Hcomplete _]]].
  exists by_attendee. split; [exact Hrun|].
  apply (Hcomplete (mkOrderPosition 20 10 1%Z (Some "j@x.com") (Some "Jane Doe"))
                   (mkOrder 10 7 "ABC12" (Some "j@x.com")) "Jane Doe");
    [simpl; auto | reflexivity | reflexivity | reflexivity |].
  intros op' o' [<-|[<-|[]]] Ho He Hk; [reflexivity|].
  cbv in Ho. inversion Ho; subst o'. discriminate.
Defined.

Lemma invoice_address_export_contents_witness :
  exists by_order,
    generate_files ia_columns (fun l => JList (map qa_columns l))
      InvoiceAddressShredder 7 shop =
      Ok ([("invoice-addresses.json", "application/json", JDict by_order)], shop) /\
    dict_get "ABC12" by_order = Some (JDict [("company", JStr "Acme")]).
Proof.
  destruct (invoice_address_export_contents ia_columns
              (fun l => JList (map qa_columns l)) 7 shop)
    as [by_order [Hrun [Hcomplete _]]].
  exists by_order. split; [exact Hrun|].
  apply (Hcomplete (mkInvoiceAddress 30 10 (JDict [("company", JStr "Acme")]))
                   (mkOrder 10 7 "ABC12" (Some "j@x.com")));
    [simpl; auto | reflexivity | reflexivity |].
  intros ia' o' [<-|[]] Ho He Hk. reflexivity.
Defined.

Lemma question_answer_export_contents_witness :
  exists by_attendee,
    generate_files ia_columns (fun l => JList (map qa_columns l))
      QuestionAnswerShredder 7 shop =
      Ok ([("question-answers.json", "application/json", JDict by_attendee)], shop) /\
    dict_get "ABC12-1" by_attendee = Some (JList [JStr "vegan"]).
Proof.
  destruct (question_answer_export_contents ia_columns
              (fun l => JList (map qa_columns l)) 7 shop)
    as [by_attendee [Hrun [Hcomplete _]]].
  exists by_attendee. split; [exact Hrun|].
  apply (Hcomplete (mkOrderPosition 20 10 1%Z (Some "j@x.com") (Some "Jane Doe"))
                   (mkOrder 10 7 "ABC12" (Some "j@x.com")));
    [simpl; auto | reflexivity | reflexivity |].
  intros op' o' [<-|[<-|[]]] Ho He Hk; [reflexivity|].
  cbv in Ho. inversion Ho; subst o'. discriminate.
Defined.

(** ** When an entry is rewritten *)

(** Whatever the parsed payload is, when the loop body of a shredder returns
    it has rewritten the entry exactly when the payload is a mapping that
    has the shredder's section: a [data] key, or for the invoice address
    shredder an [invoice_data] that is not a boolean.  A list or a string
    without the section's name in it is skipped like a mapping without the
    key. *)
Theorem rewritten_iff_section (sh : shredder) (p : json) (res : option json) :
  mask_order_modified sh p = Ok res ->
  (res <> None <-> has_section sh p = true).
Proof.
  intros H. split.
  - intros Hres. destruct (has_section sh p) eqn:Hsec; [reflexivity|].
    exfalso. apply Hres. eapply no_section_no_rewrite; eassumption.
  - intros Hsec. eapply has_section_rewrites; eassumption.
Qed.

Lemma rewritten_iff_section_witness :
  (@None json <> None <-> has_section AttendeeNameShredder (JList [JStr "x"]) = true).
Proof.
  apply (rewritten_iff_section AttendeeNameShredder (JList [JStr "x"]) None).
  reflexivity.
Defined.
